(** * PlayAxis: the playback controller of the Power BI visual

    A shallow embedding of [class Visual] of the two source files of the
    repository: the basic visual ([src/playAxis.ts]) and the extended one
    (auto start and loop).  The two files share the controller; where they
    differ the definitions below branch on a [Variant].

    The visual lives inside a host: the browser's timer queue
    ([setTimeout]/[clearTimeout]), the selection manager and the SVG label.
    The host is modelled as part of the [World]: a queue of pending timers
    with a clock, each delay kept in 32 bits as the browser keeps it, and
    the list of calls made on the sinks.

    JavaScript numbers are integers here ([Z]): indices, the cursor, the
    argument of [step], and [timeInterval], for which the format pane offers
    500 to 5000.  Of the SVG only the label's text and the opacity of the
    buttons are kept; fills, font sizes and view boxes are left out. *)

From Stdlib Require Import ZArith List String Bool Lia.
Import ListNotations.
Local Open Scope string_scope.
Local Open Scope list_scope.
Local Open Scope Z_scope.

Set Implicit Arguments.

(** ** Data model *)

(** [enum Status {Play, Pause, Stop}] *)
Inductive Status : Type := Play | Pause | Stop.

(** The two source files. *)
Inductive Variant : Type := Basic | Extended.

(** [dataViews[0].categorical.categories[0]]: its values, already rendered
    as strings ([category.values[i] + '']), and [source.displayName]. *)
Record DataViewCategoryColumn : Type := {
  values : list string;
  displayName : string
}.

(** [host.createSelectionIdBuilder().withCategory(category, i)
    .createSelectionId()]: the identifier is opaque to the visual, so it is
    kept as the term that built it. *)
Inductive ISelectionId : Type :=
| withCategory (column : DataViewCategoryColumn) (i : nat).

(** [interface CategoryDataPoint] *)
Record CategoryDataPoint : Type := {
  category : string;
  selectionId : ISelectionId
}.

(** [interface VisualSettings].  The colour selector and the caption's
    colour, font size and alignment only style the SVG and are left out.
    The basic file has no [autoStart] and no [loop]; its view models carry
    [false] there and its code never reads them. *)
Record TransitionSettings : Type := {
  autoStart : bool;
  loop : bool;
  timeInterval : Z
}.

Record CaptionSettings : Type := {
  show : bool
}.

Record VisualSettings : Type := {
  transitionSettings : TransitionSettings;
  captionSettings : CaptionSettings
}.

(** [interface ViewModel].  [settings = None] is the object
    [<VisualSettings>{}] of the basic file's [emptyViewModel]: every read of
    [settings.transitionSettings.x], [settings.colorSelector.x] or
    [settings.captionSettings.x] on it raises a [TypeError]. *)
Record ViewModel : Type := {
  dataPoints : list CategoryDataPoint;
  settings : option VisualSettings
}.

(** The closures handed to [setTimeout], defunctionalised: the advance
    callback captures its own [i] ([let i] is scoped per iteration), the
    extended file's [stopAnimationTimer] captures nothing but [this]. *)
Inductive Callback : Type :=
| advance (i : Z)
| stopAnimationTimer.

(** A timer of the host's queue: the handle [setTimeout] returned, the
    delay it was given, and the instant at which it becomes due. *)
Record Timer : Type := {
  handle : nat;
  delay : Z;
  fires_at : Z;
  callback : Callback
}.

(** Calls on the sinks, in the order they are made. *)
Inductive Event : Type :=
| Select (id : ISelectionId)              (* selectionManager.select(id) *)
| Clear                                   (* selectionManager.clear() *)
| LabelText (s : string)                  (* svg.select("#label").text(s) *)
| Opacity (selector : string) (value : string).
                                  (* svg.selectAll(selector).attr("opacity", value) *)

(** The fields of [Visual] the controller uses, followed by the host's
    side.  [viewModel = None] is [undefined] (no [update] yet).
    [visualSettings = None] is [undefined] or [{}]: both raise on
    [visualSettings.captionSettings.show].  [visualDataPoints] is written by
    [update] and never read, so it has no field. *)
Record World : Type := {
  status : Status;
  lastSelected : Z;
  viewModel : option ViewModel;
  visualSettings : option VisualSettings;
  timers : list nat;
  (* host *)
  pending : list Timer;
  next_handle : nat;
  clock : Z;
  events : list Event
}.

Definition set_status (s : Status) (w : World) : World :=
  {| status := s; lastSelected := lastSelected w; viewModel := viewModel w;
     visualSettings := visualSettings w; timers := timers w;
     pending := pending w; next_handle := next_handle w; clock := clock w;
     events := events w |}.

Definition set_lastSelected (i : Z) (w : World) : World :=
  {| status := status w; lastSelected := i; viewModel := viewModel w;
     visualSettings := visualSettings w; timers := timers w;
     pending := pending w; next_handle := next_handle w; clock := clock w;
     events := events w |}.

Definition set_viewModel (vm : option ViewModel) (w : World) : World :=
  {| status := status w; lastSelected := lastSelected w; viewModel := vm;
     visualSettings := visualSettings w; timers := timers w;
     pending := pending w; next_handle := next_handle w; clock := clock w;
     events := events w |}.

Definition set_visualSettings (vs : option VisualSettings) (w : World) : World :=
  {| status := status w; lastSelected := lastSelected w; viewModel := viewModel w;
     visualSettings := vs; timers := timers w;
     pending := pending w; next_handle := next_handle w; clock := clock w;
     events := events w |}.

Definition set_timers (ts : list nat) (w : World) : World :=
  {| status := status w; lastSelected := lastSelected w; viewModel := viewModel w;
     visualSettings := visualSettings w; timers := ts;
     pending := pending w; next_handle := next_handle w; clock := clock w;
     events := events w |}.

Definition set_pending (ps : list Timer) (w : World) : World :=
  {| status := status w; lastSelected := lastSelected w; viewModel := viewModel w;
     visualSettings := visualSettings w; timers := timers w;
     pending := ps; next_handle := next_handle w; clock := clock w;
     events := events w |}.

Definition set_next_handle (n : nat) (w : World) : World :=
  {| status := status w; lastSelected := lastSelected w; viewModel := viewModel w;
     visualSettings := visualSettings w; timers := timers w;
     pending := pending w; next_handle := n; clock := clock w;
     events := events w |}.

Definition set_clock (t : Z) (w : World) : World :=
  {| status := status w; lastSelected := lastSelected w; viewModel := viewModel w;
     visualSettings := visualSettings w; timers := timers w;
     pending := pending w; next_handle := next_handle w; clock := t;
     events := events w |}.

Definition set_events (es : list Event) (w : World) : World :=
  {| status := status w; lastSelected := lastSelected w; viewModel := viewModel w;
     visualSettings := visualSettings w; timers := timers w;
     pending := pending w; next_handle := next_handle w; clock := clock w;
     events := es |}.

(** ** Methods run in a state monad with one exception

    A method either returns, or raises a [TypeError] (a property read on
    [undefined]); what it wrote before raising stays written. *)
Inductive Completion (A : Type) : Type :=
| Normal (a : A) (w : World)
| TypeError (w : World).

Arguments TypeError {A} w.

Definition M (A : Type) : Type := World -> Completion A.

Definition ret {A : Type} (a : A) : M A := fun w => Normal a w.

Definition bind {A B : Type} (c : M A) (k : A -> M B) : M B :=
  fun w => match c w with
           | Normal a w' => k a w'
           | TypeError w' => TypeError w'
           end.

Definition throw {A : Type} : M A := fun w => TypeError w.

Definition gets {A : Type} (f : World -> A) : M A := fun w => Normal (f w) w.

Definition modify (f : World -> World) : M unit := fun w => Normal tt (f w).

Declare Scope method_scope.
Delimit Scope method_scope with method.
Notation "x <- c ;; k" := (bind c (fun x => k))
  (at level 61, c at next level, right associativity) : method_scope.
Notation "c ;; k" := (bind c (fun _ => k))
  (at level 61, right associativity) : method_scope.
Local Open Scope method_scope.

(** The world a method leaves behind, however it completed. *)
Definition final {A : Type} (c : Completion A) : World :=
  match c with
  | Normal _ w => w
  | TypeError w => w
  end.

(** [for (let x of l) body(x)] *)
Fixpoint for_each {A : Type} (l : list A) (body : A -> M unit) : M unit :=
  match l with
  | [] => ret tt
  | x :: l' => body x ;; for_each l' body
  end.

(** The indices visited by [for (let i = lo; i < hi; ++i)]. *)
Definition range (lo hi : Z) : list Z :=
  map (fun k => lo + Z.of_nat k) (seq 0 (Z.to_nat (hi - lo))).

(** [a[i]] followed by a property read: [undefined] outside the array, and
    the read raises. *)
Definition index {A : Type} (a : list A) (i : Z) : M A :=
  if i <? 0 then throw
  else match nth_error a (Z.to_nat i) with
       | Some x => ret x
       | None => throw
       end.

(** ** The host *)

(** The host keeps the delay of a timer as a 32-bit signed integer (the
    [long] of the [setTimeout] interface): the number it is given is reduced
    modulo 2^32 into the range from -2^31 to 2^31 - 1. *)
Definition to_long (d : Z) : Z :=
  (d + 2147483648) mod 4294967296 - 2147483648.

(** [setTimeout(cb, d)]: a fresh handle; the timer is due [to_long d]
    milliseconds from now, at once when that is not positive. *)
Definition setTimeout (cb : Callback) (d : Z) : M nat :=
  fun w =>
    let t := {| handle := next_handle w; delay := d;
                fires_at := clock w + Z.max 0 (to_long d); callback := cb |} in
    Normal (next_handle w)
           (set_next_handle (S (next_handle w)) (set_pending (pending w ++ [t]) w)).

(** [clearTimeout(h)]: the timer, if still pending, will not fire. *)
Definition clearTimeout (h : nat) : M unit :=
  modify (fun w =>
    set_pending (filter (fun t => negb (Nat.eqb (handle t) h)) (pending w)) w).

Definition emit (e : Event) : M unit :=
  modify (fun w => set_events (events w ++ [e]) w).

(** ** The controller *)

(** [this.viewModel.x]: raises while [viewModel] is [undefined]. *)
Definition read_viewModel : M ViewModel :=
  fun w => match viewModel w with
           | Some vm => Normal vm w
           | None => TypeError w
           end.

(** [vm.settings.transitionSettings.x] and the like: raises on [{}]. *)
Definition read_settings (vm : ViewModel) : M VisualSettings :=
  match settings vm with
  | Some s => ret s
  | None => throw
  end.

(** [this.visualSettings.captionSettings.x] and the like. *)
Definition read_visualSettings : M VisualSettings :=
  fun w => match visualSettings w with
           | Some s => Normal s w
           | None => TypeError w
           end.

Definition updateCaption (caption : string) : M unit :=
  vs <- read_visualSettings ;;
  if show (captionSettings vs) then emit (LabelText caption) else ret tt.

Definition length_of (vm : ViewModel) : Z := Z.of_nat (List.length (dataPoints vm)).

(** [this.timers.push(timer)] *)
Definition push_timer (timer : nat) : M unit :=
  modify (fun w => set_timers (timers w ++ [timer]) w).

(** One turn of the loop of [playAnimation]: the delay is computed from
    [this.lastSelected] as it is when the timer is set. *)
Definition schedule_advance (timeInterval i : Z) : M unit :=
  ls <- gets lastSelected ;;
  timer <- setTimeout (advance i) ((i - ls) * timeInterval) ;;
  push_timer timer.

(** The extended file: replay or stop after one cycle. *)
Definition schedule_stopAnimationTimer (timeInterval len : Z) : M unit :=
  ls <- gets lastSelected ;;
  stopAnimationTimer <- setTimeout stopAnimationTimer ((len - ls) * timeInterval) ;;
  push_timer stopAnimationTimer.

Definition playAnimation (v : Variant) : M unit :=
  st <- gets status ;;
  match st with
  | Play => ret tt
  | _ =>
    emit (Opacity "#play, #next, #previous" "0.3") ;;
    emit (Opacity "#stop, #pause" "1") ;;
    vm <- read_viewModel ;;
    s <- read_settings vm ;;
    let timeInterval := timeInterval (transitionSettings s) in
    st <- gets status ;;
    ls <- gets lastSelected ;;
    let startingIndex := match st with Stop => 0 | _ => ls + 1 end in
    for_each (range startingIndex (length_of vm)) (schedule_advance timeInterval) ;;
    match v with
    | Basic => ret tt
    | Extended => schedule_stopAnimationTimer timeInterval (length_of vm)
    end ;;
    modify (set_status Play)
  end.

Definition stopAnimation : M unit :=
  st <- gets status ;;
  match st with
  | Stop => ret tt
  | _ =>
    emit (Opacity "#pause, #stop, #next, #previous" "0.3") ;;
    emit (Opacity "#play" "1") ;;
    ts <- gets timers ;;
    for_each ts clearTimeout ;;
    updateCaption "" ;;
    modify (set_lastSelected 0) ;;
    emit Clear ;;
    modify (set_status Stop)
  end.

Definition pauseAnimation : M unit :=
  st <- gets status ;;
  match st with
  | Pause | Stop => ret tt
  | Play =>
    emit (Opacity "#pause" "0.3") ;;
    emit (Opacity "#play, #stop, #next, #previous" "1") ;;
    ts <- gets timers ;;
    for_each ts clearTimeout ;;
    modify (set_status Pause)
  end.

Definition step (step : Z) : M unit :=
  st <- gets status ;;
  match st with
  | Play | Stop => ret tt
  | Pause =>
    (* Check if selection is within limits *)
    ls <- gets lastSelected ;;
    vm <- read_viewModel ;;
    if (ls + step <? 0) || (ls + step >? length_of vm - 1) then ret tt
    else
      modify (set_lastSelected (ls + step)) ;;
      ls' <- gets lastSelected ;;
      dp <- index (dataPoints vm) ls' ;;
      emit (Select (selectionId dp)) ;;
      updateCaption (category dp) ;;
      modify (set_status Pause)
  end.

(** The body of a timer's closure. *)
Definition run_callback (v : Variant) (cb : Callback) : M unit :=
  match cb with
  | advance i =>
    vm <- read_viewModel ;;
    dp <- index (dataPoints vm) i ;;
    emit (Select (selectionId dp)) ;;
    modify (set_lastSelected i) ;;
    vm' <- read_viewModel ;;
    dp' <- index (dataPoints vm') i ;;
    updateCaption (category dp')
  | stopAnimationTimer =>
    vs <- read_visualSettings ;;
    if loop (transitionSettings vs) then
      modify (set_status Stop) ;;
      modify (set_lastSelected 0) ;;
      playAnimation v
    else stopAnimation
  end.

(** ** Data updates *)

(** [dataViews[0].metadata.objects] is only ever handed to [getValue], a
    helper of the repository that is not among the source files.  An objects
    value is therefore represented by what [getValue] answers on it, one
    field per type at which the visual calls it:
    [getValue<T>(objects, objectName, propertyName, defaultValue)]. *)
Record DataViewObjects : Type := {
  getValue_boolean : string -> string -> bool -> bool;
  getValue_number : string -> string -> Z -> Z
}.

Record DataView : Type := {
  categories_0 : DataViewCategoryColumn;
  objects : DataViewObjects
}.

(** [VisualUpdateOptions], by what the chain of tests
    [!dataViews || !dataViews[0] || !dataViews[0].categorical
     || !dataViews[0].categorical.categories
     || !dataViews[0].categorical.categories[0].source] finds:
    - [absent]: one of the five is missing, the data is not ready;
    - [empty_categories]: [categories] is there and is an empty array, so
      that [categories[0]] is [undefined] and the read of its [source]
      raises;
    - [ready dv]: all five are there, [dv] holding the first category
      column and the objects of the metadata. *)
Inductive VisualUpdateOptions : Type :=
| absent
| empty_categories
| ready (dv : DataView).

Definition defaultSettings : VisualSettings :=
  {| transitionSettings :=
       {| autoStart := false; loop := false; timeInterval := 1000 |};
     captionSettings := {| show := true |} |}.

Definition emptyViewModel : ViewModel :=
  {| dataPoints := []; settings := None |}.

(** The loop of [visualTransform] that fills [categoryDataPoints], started
    at index [i]. *)
Fixpoint categoryDataPoints (column : DataViewCategoryColumn) (i : nat)
    (vals : list string) : list CategoryDataPoint :=
  match vals with
  | [] => []
  | x :: vals' =>
    {| category := x; selectionId := withCategory column i |}
      :: categoryDataPoints column (S i) vals'
  end.

(** The object literal [visualSettings] of [visualTransform]: each property
    is what [getValue] finds in the objects, or its default. *)
Definition visualSettings_of (v : Variant) (objects : DataViewObjects)
    : VisualSettings :=
  let d := transitionSettings defaultSettings in
  {| transitionSettings :=
       {| autoStart :=
            match v with
            | Basic => false
            | Extended =>
              getValue_boolean objects "transitionSettings" "autoStart"
                               (autoStart d)
            end;
          loop :=
            match v with
            | Basic => false
            | Extended =>
              getValue_boolean objects "transitionSettings" "loop" (loop d)
            end;
          timeInterval :=
            getValue_number objects "transitionSettings" "timeInterval"
                            (timeInterval d) |};
     captionSettings :=
       {| show :=
            getValue_boolean objects "captionSettings" "show"
                             (show (captionSettings defaultSettings)) |} |}.

(** The view model [visualTransform] returns for ready data. *)
Definition transformed (v : Variant) (dv : DataView) : ViewModel :=
  let column := categories_0 dv in
  {| dataPoints := categoryDataPoints column 0 (values column);
     settings := Some (visualSettings_of v (objects dv)) |}.

(** The basic file answers [emptyViewModel] when the data is not ready, and
    raises in that test on an empty [categories]; the extended file has no
    such test and reads [dataViews[0].categorical], then
    [category.values.length]. *)
Definition visualTransform (v : Variant) (options : VisualUpdateOptions)
    : M ViewModel :=
  match options with
  | absent =>
    match v with
    | Basic => ret emptyViewModel
    | Extended => throw
    end
  | empty_categories => throw
  | ready dv => ret (transformed v dv)
  end.

(** The chain of tests of the extended file: it answers [false] on a
    missing part and raises on an empty [categories]. *)
Definition isDataReady (options : VisualUpdateOptions) : M bool :=
  match options with
  | absent => ret false
  | empty_categories => throw
  | ready _ => ret true
  end.

(** [options.dataViews[0].categorical.categories[0].source.displayName] *)
Definition title_of (options : VisualUpdateOptions) : M string :=
  match options with
  | ready dv => ret (displayName (categories_0 dv))
  | absent | empty_categories => throw
  end.

(** [update]; of the rendering only the writes of the label's text are
    kept, and the reads that can raise. *)
Definition update (v : Variant) (options : VisualUpdateOptions) : M unit :=
  match v with
  | Basic =>
    vm <- visualTransform Basic options ;;
    modify (set_viewModel (Some vm)) ;;
    modify (set_visualSettings (settings vm)) ;;
    (* Change colors: viewModel.settings.colorSelector.colorPicked *)
    _ <- read_settings vm ;;
    (* Change title *)
    vs <- read_visualSettings ;;
    if show (captionSettings vs) then
      title <- title_of options ;;
      emit (LabelText title)
    else emit (LabelText "")
  | Extended =>
    is_ready <- isDataReady options ;;
    if negb is_ready then ret tt
    else
      stopAnimation ;;
      vm <- visualTransform Extended options ;;
      modify (set_viewModel (Some vm)) ;;
      modify (set_visualSettings (settings vm)) ;;
      (* Start playing without click *)
      vs <- read_visualSettings ;;
      (if autoStart (transitionSettings vs) then playAnimation Extended
       else ret tt) ;;
      (* Change colors: this.visualSettings.colorSelector.showAll *)
      vs' <- read_visualSettings ;;
      (* Change title *)
      if show (captionSettings vs') then
        title <- title_of options ;;
        emit (LabelText title) ;;
        emit (LabelText title)
      else emit (LabelText "")
  end.

(** ** The event loop *)

(** The pending timer the host runs next: the one due first, and among
    those due at the same instant the one set first. *)
Fixpoint earliest (ps : list Timer) : option Timer :=
  match ps with
  | [] => None
  | t :: ps' =>
    match earliest ps' with
    | None => Some t
    | Some u => if fires_at t <=? fires_at u then Some t else Some u
    end
  end.

(** The host takes the next timer off its queue and runs its closure, at
    the instant the timer is due or now if that instant has passed. *)
Definition fire (v : Variant) : M unit :=
  fun w =>
    match earliest (pending w) with
    | None => Normal tt w
    | Some t =>
      run_callback v (callback t)
        (set_clock (Z.max (clock w) (fires_at t))
           (set_pending
              (filter (fun u => negb (Nat.eqb (handle u) (handle t))) (pending w))
              w))
    end.

(** Time passes without any timer becoming overdue. *)
Definition wait (dt : Z) : M unit :=
  fun w =>
    if (0 <=? dt) && forallb (fun t => clock w + dt <=? fires_at t) (pending w)
    then Normal tt (set_clock (clock w + dt) w)
    else Normal tt w.

(** What can happen to the visual: the five click handlers wired by the
    constructor, the host calling [update], a timer firing, time passing. *)
Inductive Input : Type :=
| click_play
| click_stop
| click_pause
| click_previous
| click_next
| host_update (options : VisualUpdateOptions)
| timer_fires
| time_passes (dt : Z).

Definition handle_input (v : Variant) (i : Input) : M unit :=
  match i with
  | click_play => playAnimation v
  | click_stop => stopAnimation
  | click_pause => pauseAnimation
  | click_previous => step (-1)
  | click_next => step 1
  | host_update options => update v options
  | timer_fires => fire v
  | time_passes dt => wait dt
  end.

(** The visual as its constructor leaves it. *)
Definition constructed : World :=
  {| status := Stop; lastSelected := 0; viewModel := None;
     visualSettings := None; timers := [];
     pending := []; next_handle := 0%nat; clock := 0; events := [] |}.

(** An exception raised by a handler is lost in the host; the visual goes
    on from the state the handler left. *)
Inductive reachable (v : Variant) : World -> Prop :=
| reach_constructed : reachable v constructed
| reach_input (w : World) (i : Input) :
    reachable v w -> reachable v (final (handle_input v i w)).

(** Running a list of inputs. *)
Fixpoint run (v : Variant) (inputs : list Input) (w : World) : World :=
  match inputs with
  | [] => w
  | i :: inputs' => run v inputs' (final (handle_input v i w))
  end.

(** ** Sample data *)

Definition abc : DataViewCategoryColumn :=
  {| values := ["A"; "B"; "C"]; displayName := "Letter" |}.

(** Objects on which a chosen set of properties is set. *)
Definition objects_with (auto_start loop_on caption : bool) (interval : Z)
    : DataViewObjects :=
  {| getValue_boolean := fun _ prop _ =>
       if String.eqb prop "autoStart" then auto_start
       else if String.eqb prop "loop" then loop_on
       else caption;
     getValue_number := fun _ _ _ => interval |}.

Definition options_abc (auto_start loop_on caption : bool) : VisualUpdateOptions :=
  ready {| categories_0 := abc;
          objects := objects_with auto_start loop_on caption 1000 |}.

Definition options_empty (auto_start loop_on caption : bool) : VisualUpdateOptions :=
  ready {| categories_0 := {| values := []; displayName := "Letter" |};
          objects := objects_with auto_start loop_on caption 1000 |}.

(** The three letters loaded, nothing played yet. *)
Definition loaded_abc (v : Variant) (caption : bool) : World :=
  run v [host_update (options_abc false false caption)] constructed.

(** Playing the three letters, no timer fired yet. *)
Definition playing_abc (v : Variant) (caption : bool) : World :=
  run v [click_play] (loaded_abc v caption).

(** The three letters loaded with [loop] on. *)
Definition loaded_looping : World :=
  run Extended [host_update (options_abc false true true)] constructed.

(** An empty category loaded. *)
Definition loaded_empty (v : Variant) : World :=
  run v [host_update (options_empty false false true)] constructed.

(** An empty category loaded in the extended visual with [autoStart] and
    [loop] on: the visual is playing. *)
Definition empty_looping : World :=
  run Extended [host_update (options_empty true true true)] constructed.

(** The basic visual after an [update] whose data was not ready. *)
Definition not_ready : World :=
  run Basic [host_update absent] constructed.

(** Paused on "B": two timers fired, then a click on pause. *)
Definition paused_abc (v : Variant) (caption : bool) : World :=
  run v [timer_fires; timer_fires; click_pause] (playing_abc v caption).

(** The three letters loaded with [loop] on and an interval of 10^9
    milliseconds; three intervals do not fit 32 bits. *)
Definition loaded_slow : World :=
  run Extended
    [host_update
       (ready {| categories_0 := abc;
                 objects := objects_with false true true 1000000000 |})]
    constructed.

(** ** Closed forms used in the statements *)

(** A handle is among those the visual kept in [this.timers]. *)
Definition owned (ts : list nat) (t : Timer) : bool :=
  existsb (Nat.eqb (handle t)) ts.

(** The timers the loop of [playAnimation] sets for the indices [idx], the
    first with handle [h], at instant [now] with cursor [ls]. *)
Fixpoint advance_timers (h : nat) (now ls iv : Z) (idx : list Z) : list Timer :=
  match idx with
  | [] => []
  | i :: idx' =>
    {| handle := h; delay := (i - ls) * iv;
       fires_at := now + Z.max 0 (to_long ((i - ls) * iv));
       callback := advance i |}
      :: advance_timers (S h) now ls iv idx'
  end.

(** The timer of the extended file that ends a cycle. *)
Definition terminal_timer (h : nat) (now ls iv len : Z) : Timer :=
  {| handle := h; delay := (len - ls) * iv;
     fires_at := now + Z.max 0 (to_long ((len - ls) * iv));
     callback := stopAnimationTimer |}.

(** A delay the host keeps as it is given. *)
Definition fits_long (d : Z) : Prop := - 2147483648 <= d < 2147483648.

(** What a timer was set for: its closure and the delay asked for. *)
Definition scheduled (t : Timer) : Callback * Z := (callback t, delay t).

(** The sink calls made for one item: the selection, and the caption when
    captions are shown. *)
Definition item_events (vs : VisualSettings) (dp : CategoryDataPoint)
    : list Event :=
  Select (selectionId dp)
    :: (if show (captionSettings vs) then [LabelText (category dp)] else []).

Definition is_sink_event (e : Event) : bool :=
  match e with
  | Select _ | Clear | LabelText _ => true
  | Opacity _ _ => false
  end.

(** The queue, the handle list and the handle counter after [new] timers
    were set one after the other. *)
Definition add_timers (new : list Timer) (w : World) : World :=
  set_next_handle (next_handle w + List.length new)%nat
    (set_timers (timers w ++ map handle new)
       (set_pending (pending w ++ new) w)).

(** The timers one call of [playAnimation] sets. *)
Definition played_timers (v : Variant) (vm : ViewModel) (s : VisualSettings)
    (w : World) : list Timer :=
  let iv := timeInterval (transitionSettings s) in
  let startingIndex :=
    match status w with Stop => 0 | _ => lastSelected w + 1 end in
  let adv :=
    advance_timers (next_handle w) (clock w) (lastSelected w) iv
                   (range startingIndex (length_of vm)) in
  adv ++ match v with
         | Basic => []
         | Extended =>
           [terminal_timer (next_handle w + List.length adv) (clock w)
                           (lastSelected w) iv (length_of vm)]
         end.

Definition play_opacity : list Event :=
  [Opacity "#play, #next, #previous" "0.3"; Opacity "#stop, #pause" "1"].

Definition stop_opacity : list Event :=
  [Opacity "#pause, #stop, #next, #previous" "0.3"; Opacity "#play" "1"].

Definition pause_opacity : list Event :=
  [Opacity "#pause" "0.3"; Opacity "#play, #stop, #next, #previous" "1"].

(** The sink calls of [updateCaption(caption)]. *)
Definition caption_events (vs : VisualSettings) (caption : string) : list Event :=
  if show (captionSettings vs) then [LabelText caption] else [].

(** The queue once every handle of [this.timers] was cleared. *)
Definition cleared (w : World) : World :=
  set_pending (filter (fun t => negb (owned (timers w) t)) (pending w)) w.

(** The world a call of [stopAnimation] that gets past its first line and
    finds the settings leaves. *)
Definition stopped (vs : VisualSettings) (w : World) : World :=
  set_status Stop
    (set_lastSelected 0
       (set_events (events w ++ stop_opacity ++ caption_events vs "" ++ [Clear])
          (cleared w))).

Definition paused (w : World) : World :=
  set_status Pause (set_events (events w ++ pause_opacity) (cleared w)).

(** The world after the cursor moved to [i] and the item there was shown. *)
Definition shown (vs : VisualSettings) (dp : CategoryDataPoint) (i : Z)
    (w : World) : World :=
  set_events (events w ++ item_events vs dp) (set_lastSelected i w).

(** [this.viewModel = visualTransform(...); this.visualSettings =
    viewModel.settings] *)
Definition installed (vm : ViewModel) (w : World) : World :=
  set_visualSettings (settings vm) (set_viewModel (Some vm) w).

(** The writes of the label's text at the end of [update]. *)
Definition title_events (v : Variant) (vs : VisualSettings) (dv : DataView)
    : list Event :=
  if show (captionSettings vs) then
    match v with
    | Basic => [LabelText (displayName (categories_0 dv))]
    | Extended => [LabelText (displayName (categories_0 dv));
                   LabelText (displayName (categories_0 dv))]
    end
  else [LabelText ""].

(** The extended [update] on ready data, after [stopAnimation] returned in
    world [w1]. *)
Definition update_after_stop (dv : DataView) (w1 : World) : Completion unit :=
  let vm := transformed Extended dv in
  let vs := visualSettings_of Extended (objects dv) in
  let w2 := installed vm w1 in
  match (if autoStart (transitionSettings vs) then playAnimation Extended w2
         else Normal tt w2) with
  | TypeError w' => TypeError w'
  | Normal _ w3 =>
    Normal tt (set_events (events w3 ++ title_events Extended vs dv) w3)
  end.

(** ** The invariant of the reachable worlds *)

(** [lastSelected] is back at 0 whenever the status is [Stop]. *)
Definition cursor_reset (w : World) : Prop :=
  status w = Stop -> lastSelected w = 0.

(** No timer is pending unless the status is [Play]. *)
Definition idle_queue (w : World) : Prop :=
  status w <> Play -> pending w = [].

(** The handle of every pending timer was pushed on [this.timers]. *)
Definition handles_kept (w : World) : Prop :=
  forall t, In t (pending w) -> In (handle t) (timers w).

(** Handles are handed out once, in increasing order. *)
Definition handles_fresh (w : World) : Prop :=
  NoDup (map handle (pending w))
  /\ forall t, In t (pending w) -> (handle t < next_handle w)%nat.

(** The status leaves [Stop] only once [update] has stored a view model. *)
Definition model_present (w : World) : Prop :=
  status w <> Stop -> viewModel w <> None.

(** [this.visualSettings] is [this.viewModel.settings]. *)
Definition settings_agree (w : World) : Prop :=
  visualSettings w
  = match viewModel w with Some vm => settings vm | None => None end.

(** The extended file never stores [emptyViewModel]. *)
Definition settings_full (v : Variant) (w : World) : Prop :=
  v = Extended -> forall vm, viewModel w = Some vm -> settings vm <> None.

(** The basic file sets no [stopAnimationTimer]. *)
Definition no_terminal (v : Variant) (w : World) : Prop :=
  v = Basic -> forall t, In t (pending w) -> callback t <> stopAnimationTimer.

(** In the extended file the cursor stays inside the sequence (or at 0). *)
Definition cursor_inside (v : Variant) (w : World) : Prop :=
  v = Extended -> forall vm, viewModel w = Some vm ->
  lastSelected w = 0 \/ 0 <= lastSelected w < length_of vm.

(** The cursor is never negative, and no pending advance aims below 0. *)
Definition cursor_nonneg (w : World) : Prop := 0 <= lastSelected w.

Definition targets_nonneg (w : World) : Prop :=
  forall t i, In t (pending w) -> callback t = advance i -> 0 <= i.

(** In the extended file every pending advance aims inside the sequence. *)
Definition targets_inside (v : Variant) (w : World) : Prop :=
  v = Extended -> forall vm t i, viewModel w = Some vm ->
  In t (pending w) -> callback t = advance i -> 0 <= i < length_of vm.

Record Inv (v : Variant) (w : World) : Prop := {
  inv_cursor_reset : cursor_reset w;
  inv_idle_queue : idle_queue w;
  inv_handles_kept : handles_kept w;
  inv_handles_fresh : handles_fresh w;
  inv_model_present : model_present w;
  inv_settings_agree : settings_agree w;
  inv_settings_full : settings_full v w;
  inv_no_terminal : no_terminal v w;
  inv_cursor_inside : cursor_inside v w;
  inv_targets_inside : targets_inside v w;
  inv_cursor_nonneg : cursor_nonneg w;
  inv_targets_nonneg : targets_nonneg w
}.

(** ** Whole schedules and cycles *)

(** What is set by a call of [playAnimation] made in [Stop] with the cursor
    at 0: the advance for every index, then the extended file's timer. *)
Definition full_schedule (v : Variant) (vm : ViewModel) (s : VisualSettings)
    : list (Callback * Z) :=
  let iv := timeInterval (transitionSettings s) in
  map (fun i => (advance (Z.of_nat i), Z.of_nat i * iv))
      (seq 0 (List.length (dataPoints vm)))
  ++ match v with
     | Basic => []
     | Extended =>
       [(stopAnimationTimer, Z.of_nat (List.length (dataPoints vm)) * iv)]
     end.

(** [n] timers fire one after the other. *)
Definition fires (v : Variant) (n : nat) (w : World) : World :=
  run v (repeat timer_fires n) w.

(** The world right after [playAnimation] ran in [Stop] on the sequence of
    [vm]: every advance and the [stopAnimationTimer] are pending, set at the
    same instant [c]. *)
Definition cycle_start (vm : ViewModel) (s : VisualSettings) (w : World) : Prop :=
  status w = Play /\ lastSelected w = 0
  /\ viewModel w = Some vm /\ visualSettings w = Some s
  /\ exists h c,
       pending w
       = advance_timers h c 0 (timeInterval (transitionSettings s))
           (map Z.of_nat (seq 0 (List.length (dataPoints vm))))
         ++ [terminal_timer (h + List.length (dataPoints vm)) c 0
               (timeInterval (transitionSettings s)) (length_of vm)].

(** ** Definitions for the further properties *)

(** The timers a call of [playAnimation] made in [Stop] leaves at the end
    of the queue, behind the advances. *)
Definition closing_timers (v : Variant) (vm : ViewModel) (s : VisualSettings)
    (w : World) : list Timer :=
  match v with
  | Basic => []
  | Extended =>
    [terminal_timer (next_handle w + List.length (dataPoints vm)) (clock w) 0
       (timeInterval (transitionSettings s)) (length_of vm)]
  end.

(** The same for a call made in [Pause] with the cursor on item [c]. *)
Definition closing_timers_resumed (v : Variant) (vm : ViewModel)
    (s : VisualSettings) (c : nat) (w : World) : list Timer :=
  match v with
  | Basic => []
  | Extended =>
    [terminal_timer (next_handle w + (List.length (dataPoints vm) - S c))
       (clock w) (Z.of_nat c) (timeInterval (transitionSettings s))
       (length_of vm)]
  end.

(** * Lemmas *)

Ltac run_method :=
  cbv [bind ret gets modify emit throw read_viewModel read_settings
       read_visualSettings updateCaption setTimeout clearTimeout push_timer].

(** Reduce the record projections and setters, and nothing else. *)
Ltac fields :=
  cbn [status lastSelected viewModel visualSettings timers pending next_handle
       clock events set_status set_lastSelected set_viewModel
       set_visualSettings set_timers set_pending set_next_handle set_clock
       set_events handle delay fires_at callback] in *.

(** Two worlds are equal when their fields are. *)
Lemma world_ext (w1 w2 : World) :
  status w1 = status w2 -> lastSelected w1 = lastSelected w2 ->
  viewModel w1 = viewModel w2 -> visualSettings w1 = visualSettings w2 ->
  timers w1 = timers w2 -> pending w1 = pending w2 ->
  next_handle w1 = next_handle w2 -> clock w1 = clock w2 ->
  events w1 = events w2 -> w1 = w2.
Proof.
  destruct w1, w2; cbn [status lastSelected viewModel visualSettings timers
    pending next_handle clock events]; intros; subst; reflexivity.
Qed.

Ltac world_eq := apply world_ext; fields.

Lemma set_pending_same (w : World) : set_pending (pending w) w = w.
Proof. destruct w; reflexivity. Qed.

Lemma filter_all_true {A : Type} (f : A -> bool) (l : list A) :
  (forall x, In x l -> f x = true) -> filter f l = l.
Proof.
  induction l as [|a l IH]; intros H; simpl; [reflexivity|].
  rewrite (H a (or_introl eq_refl)), IH; [reflexivity|].
  intros x Hx; apply H; right; exact Hx.
Qed.

Lemma filter_all_false {A : Type} (f : A -> bool) (l : list A) :
  (forall x, In x l -> f x = false) -> filter f l = [].
Proof.
  induction l as [|a l IH]; intros H; simpl; [reflexivity|].
  rewrite (H a (or_introl eq_refl)). apply IH.
  intros x Hx; apply H; right; exact Hx.
Qed.

Lemma filter_twice {A : Type} (f g : A -> bool) (l : list A) :
  filter f (filter g l) = filter (fun x => g x && f x) l.
Proof.
  induction l as [|a l IH]; simpl; [reflexivity|].
  destruct (g a); simpl; [destruct (f a)|]; rewrite IH; reflexivity.
Qed.

(** [for (let i of this.timers) clearTimeout(i)] removes from the queue
    every timer whose handle the visual kept. *)
Lemma for_each_clearTimeout (ts : list nat) (w : World) :
  for_each ts clearTimeout w
  = Normal tt (set_pending (filter (fun t => negb (owned ts t)) (pending w)) w).
Proof.
  revert w; induction ts as [|h ts IH]; intros w.
  - cbn [for_each]. unfold ret. rewrite filter_all_true by reflexivity.
    now rewrite set_pending_same.
  - cbn [for_each]. unfold bind at 1. unfold clearTimeout at 1, modify.
    rewrite IH. f_equal. world_eq; try reflexivity.
    rewrite filter_twice. apply filter_ext. intros t.
    unfold owned; cbn [existsb]. now rewrite negb_orb.
Qed.

Lemma owned_In (ts : list nat) (t : Timer) :
  owned ts t = true <-> In (handle t) ts.
Proof.
  unfold owned. rewrite existsb_exists. split.
  - intros (x & Hx & E). apply Nat.eqb_eq in E. now subst.
  - intros H. exists (handle t). split; [exact H | apply Nat.eqb_refl].
Qed.

Lemma clear_owned (ts : list nat) (ps : list Timer) :
  (forall t, In t ps -> In (handle t) ts) ->
  filter (fun t => negb (owned ts t)) ps = [].
Proof.
  intros H. apply filter_all_false. intros t Ht.
  apply negb_false_iff, owned_In, H, Ht.
Qed.

Lemma for_each_schedule_advance (iv : Z) (idx : list Z) (w : World) :
  for_each idx (schedule_advance iv) w
  = Normal tt
      (add_timers
         (advance_timers (next_handle w) (clock w) (lastSelected w) iv idx) w).
Proof.
  revert w; induction idx as [|i idx IH]; intros w.
  - cbn [for_each advance_timers]. unfold ret, add_timers. f_equal.
    world_eq; cbn [map List.length]; rewrite ?app_nil_r, ?Nat.add_0_r;
      reflexivity.
  - cbn [for_each]. unfold bind at 1. unfold schedule_advance at 1.
    run_method. rewrite IH. f_equal.
    unfold add_timers. world_eq; cbn [advance_timers map List.length]; fields;
      rewrite <- ?app_assoc; cbn [app]; try reflexivity. lia.
Qed.

Lemma advance_timers_length (h : nat) (now ls iv : Z) (idx : list Z) :
  List.length (advance_timers h now ls iv idx) = List.length idx.
Proof.
  revert h; induction idx as [|i idx IH]; intros h; cbn [advance_timers List.length];
    [|rewrite IH]; reflexivity.
Qed.

Lemma playAnimation_Play (v : Variant) (w : World) :
  status w = Play -> playAnimation v w = Normal tt w.
Proof. intros H. unfold playAnimation. run_method. now rewrite H. Qed.

(** Past its first line [playAnimation] does the same in [Pause] and in
    [Stop], up to the starting index. *)
Lemma playAnimation_not_Play (v : Variant) (w : World) :
  status w <> Play ->
  playAnimation v w
  = (emit (Opacity "#play, #next, #previous" "0.3") ;;
     emit (Opacity "#stop, #pause" "1") ;;
     vm <- read_viewModel ;;
     s <- read_settings vm ;;
     st <- gets status ;;
     ls <- gets lastSelected ;;
     for_each (range (match st with Stop => 0 | _ => ls + 1 end) (length_of vm))
              (schedule_advance (timeInterval (transitionSettings s))) ;;
     match v with
     | Basic => ret tt
     | Extended =>
       schedule_stopAnimationTimer (timeInterval (transitionSettings s))
                                   (length_of vm)
     end ;;
     modify (set_status Play)) w.
Proof.
  intros H. unfold playAnimation. unfold bind at 1. unfold gets at 1.
  destruct (status w); [contradiction|reflexivity..].
Qed.

Lemma playAnimation_runs (v : Variant) (w : World) (vm : ViewModel)
    (s : VisualSettings) :
  status w <> Play -> viewModel w = Some vm -> settings vm = Some s ->
  playAnimation v w
  = Normal tt
      (set_status Play
         (add_timers (played_timers v vm s w)
            (set_events (events w ++ play_opacity) w))).
Proof.
  intros Hst Hvm Hs. rewrite playAnimation_not_Play by exact Hst.
  run_method. fields. rewrite Hvm, Hs.
  rewrite for_each_schedule_advance. fields.
  unfold played_timers, add_timers, play_opacity.
  destruct v.
  - f_equal. world_eq; rewrite ?app_nil_r, <- ?app_assoc; reflexivity.
  - unfold schedule_stopAnimationTimer. run_method. fields. f_equal.
    world_eq; rewrite ?map_app, ?length_app, <- ?app_assoc;
      rewrite ?advance_timers_length; cbn [map List.length app]; fields;
      try reflexivity.
    lia.
Qed.

Lemma playAnimation_raises (v : Variant) (w : World) :
  status w <> Play ->
  (viewModel w = None \/ exists vm, viewModel w = Some vm /\ settings vm = None) ->
  playAnimation v w = TypeError (set_events (events w ++ play_opacity) w).
Proof.
  intros Hst H. rewrite playAnimation_not_Play by exact Hst.
  run_method. fields.
  assert (E : set_events ((events w ++ [Opacity "#play, #next, #previous" "0.3"])
                            ++ [Opacity "#stop, #pause" "1"])
                (set_events (events w ++ [Opacity "#play, #next, #previous" "0.3"]) w)
              = set_events (events w ++ play_opacity) w).
  { unfold play_opacity. world_eq; rewrite <- ?app_assoc; reflexivity. }
  destruct H as [-> | (vm & -> & ->)]; now rewrite E.
Qed.

Lemma stopAnimation_eq (w : World) :
  stopAnimation w
  = match status w with
    | Stop => Normal tt w
    | _ =>
      match visualSettings w with
      | Some vs => Normal tt (stopped vs w)
      | None => TypeError (set_events (events w ++ stop_opacity) (cleared w))
      end
    end.
Proof.
  unfold stopAnimation. unfold bind at 1. unfold gets at 1.
  destruct (status w) eqn:Hst; [| |reflexivity].
  all: unfold bind at 1; unfold emit at 1, modify;
    unfold bind at 1; unfold emit at 1, modify;
    unfold bind at 1; unfold gets at 1;
    unfold bind at 1; rewrite for_each_clearTimeout;
    run_method; fields;
    unfold stopped, cleared, caption_events, stop_opacity;
    destruct (visualSettings w) as [vs|];
      [destruct (show (captionSettings vs))|];
      f_equal; world_eq; rewrite <- ?app_assoc; reflexivity.
Qed.

Lemma pauseAnimation_eq (w : World) :
  pauseAnimation w
  = match status w with
    | Play => Normal tt (paused w)
    | _ => Normal tt w
    end.
Proof.
  unfold pauseAnimation. unfold bind at 1. unfold gets at 1.
  destruct (status w) eqn:Hst; [|reflexivity..].
  unfold bind at 1; unfold emit at 1, modify;
    unfold bind at 1; unfold emit at 1, modify;
    unfold bind at 1; unfold gets at 1;
    unfold bind at 1; rewrite for_each_clearTimeout.
  run_method; fields. unfold paused, cleared, pause_opacity.
  f_equal; world_eq; rewrite <- ?app_assoc; reflexivity.
Qed.

(** [a[i]] for an index inside the array. *)
Lemma index_inside {A : Type} (a : list A) (i : Z) (w : World) :
  0 <= i < Z.of_nat (List.length a) ->
  exists x, nth_error a (Z.to_nat i) = Some x /\ index a i w = Normal x w.
Proof.
  intros H. unfold index.
  destruct (i <? 0) eqn:E; [lia|].
  destruct (nth_error a (Z.to_nat i)) as [x|] eqn:N.
  - exists x. split; reflexivity.
  - apply nth_error_None in N. lia.
Qed.

Lemma step_eq (d : Z) (w : World) :
  step d w
  = match status w with
    | Pause =>
      match viewModel w with
      | None => TypeError w
      | Some vm =>
        if (lastSelected w + d <? 0) || (lastSelected w + d >? length_of vm - 1)
        then Normal tt w
        else
          match nth_error (dataPoints vm) (Z.to_nat (lastSelected w + d)) with
          | None => TypeError (set_lastSelected (lastSelected w + d) w)
          | Some dp =>
            match visualSettings w with
            | Some vs =>
              Normal tt (set_status Pause (shown vs dp (lastSelected w + d) w))
            | None =>
              TypeError (set_events (events w ++ [Select (selectionId dp)])
                           (set_lastSelected (lastSelected w + d) w))
            end
          end
      end
    | _ => Normal tt w
    end.
Proof.
  unfold step. unfold bind at 1. unfold gets at 1.
  destruct (status w) eqn:Hst; [reflexivity| |reflexivity].
  run_method; fields. destruct (viewModel w) as [vm|]; [|reflexivity].
  destruct ((lastSelected w + d <? 0) || (lastSelected w + d >? length_of vm - 1))
    eqn:B; [reflexivity|].
  apply orb_false_iff in B. destruct B as [B1 B2].
  unfold index. rewrite B1.
  destruct (nth_error (dataPoints vm) (Z.to_nat (lastSelected w + d))) as [dp|];
    [|reflexivity].
  run_method; fields. destruct (visualSettings w) as [vs|]; [|reflexivity].
  unfold shown, item_events.
  destruct (show (captionSettings vs)); f_equal; world_eq;
    rewrite <- ?app_assoc; reflexivity.
Qed.

Lemma run_callback_advance_eq (v : Variant) (i : Z) (w : World) :
  run_callback v (advance i) w
  = match viewModel w with
    | None => TypeError w
    | Some vm =>
      if i <? 0 then TypeError w
      else
        match nth_error (dataPoints vm) (Z.to_nat i) with
        | None => TypeError w
        | Some dp =>
          match visualSettings w with
          | Some vs => Normal tt (shown vs dp i w)
          | None =>
            TypeError (set_events (events w ++ [Select (selectionId dp)])
                         (set_lastSelected i w))
          end
        end
    end.
Proof.
  unfold run_callback.
  run_method; fields. destruct (viewModel w) as [vm|] eqn:Hvm; [|reflexivity].
  unfold index. destruct (i <? 0) eqn:B; [reflexivity|].
  destruct (nth_error (dataPoints vm) (Z.to_nat i)) as [dp|] eqn:N;
    [|reflexivity].
  run_method; fields. rewrite Hvm, N. cbv beta iota; fields.
  destruct (visualSettings w) as [vs|]; [|f_equal; world_eq; reflexivity].
  unfold shown, item_events.
  destruct (show (captionSettings vs)); f_equal; world_eq;
    rewrite <- ?app_assoc; reflexivity.
Qed.

Lemma run_callback_stopAnimationTimer_eq (v : Variant) (w : World) :
  run_callback v stopAnimationTimer w
  = match visualSettings w with
    | None => TypeError w
    | Some vs =>
      if loop (transitionSettings vs)
      then playAnimation v (set_lastSelected 0 (set_status Stop w))
      else stopAnimation w
    end.
Proof.
  unfold run_callback. unfold bind at 1. unfold read_visualSettings at 1.
  destruct (visualSettings w) as [vs|]; [|reflexivity].
  destruct (loop (transitionSettings vs)); reflexivity.
Qed.

(** The three ways a call of [playAnimation] can go. *)
Lemma playAnimation_cases (v : Variant) (w : World) :
  (status w = Play /\ playAnimation v w = Normal tt w)
  \/ (status w <> Play /\ exists vm s,
        viewModel w = Some vm /\ settings vm = Some s
        /\ playAnimation v w
           = Normal tt
               (set_status Play
                  (add_timers (played_timers v vm s w)
                     (set_events (events w ++ play_opacity) w))))
  \/ (status w <> Play
      /\ (viewModel w = None
          \/ exists vm, viewModel w = Some vm /\ settings vm = None)
      /\ playAnimation v w = TypeError (set_events (events w ++ play_opacity) w)).
Proof.
  destruct (status w) eqn:St.
  - left. split; [reflexivity|]. now apply playAnimation_Play.
  - assert (N : status w <> Play) by congruence. rewrite <- St. right.
    destruct (viewModel w) as [vm|] eqn:Hvm.
    + destruct (settings vm) as [s|] eqn:Hs.
      * left. split; [exact N|]. exists vm, s. repeat split; try assumption.
        now apply playAnimation_runs.
      * right. split; [exact N|]. split; [right; now exists vm|].
        apply playAnimation_raises; [exact N|]. right. now exists vm.
    + right. split; [exact N|]. split; [now left|].
      apply playAnimation_raises; [exact N|]. now left.
  - assert (N : status w <> Play) by congruence. rewrite <- St. right.
    destruct (viewModel w) as [vm|] eqn:Hvm.
    + destruct (settings vm) as [s|] eqn:Hs.
      * left. split; [exact N|]. exists vm, s. repeat split; try assumption.
        now apply playAnimation_runs.
      * right. split; [exact N|]. split; [right; now exists vm|].
        apply playAnimation_raises; [exact N|]. right. now exists vm.
    + right. split; [exact N|]. split; [now left|].
      apply playAnimation_raises; [exact N|]. now left.
Qed.

(** [playAnimation] writes neither the view model, nor the settings, nor
    the cursor, nor the clock. *)
Lemma playAnimation_frame (v : Variant) (w : World) :
  viewModel (final (playAnimation v w)) = viewModel w
  /\ visualSettings (final (playAnimation v w)) = visualSettings w
  /\ lastSelected (final (playAnimation v w)) = lastSelected w
  /\ clock (final (playAnimation v w)) = clock w.
Proof.
  destruct (playAnimation_cases v w)
    as [[_ E]|[(_ & vm & s & _ & _ & E)|(_ & _ & E)]];
    rewrite E; unfold final, add_timers; fields; auto.
Qed.

(** ** [update] *)

Lemma update_Basic_eq (options : VisualUpdateOptions) (w : World) :
  update Basic options w
  = match options with
    | absent => TypeError (installed emptyViewModel w)
    | empty_categories => TypeError w
    | ready dv =>
      let w' := installed (transformed Basic dv) w in
      Normal tt
        (set_events
           (events w' ++ title_events Basic (visualSettings_of Basic (objects dv)) dv)
           w')
    end.
Proof.
  unfold update, visualTransform. destruct options as [| |dv].
  - run_method. unfold emptyViewModel. cbn [settings]. reflexivity.
  - reflexivity.
  - run_method. unfold transformed. cbn [settings]. fields.
    unfold title_events, title_of, installed, transformed. cbn [settings].
    destruct (show (captionSettings (visualSettings_of Basic (objects dv))));
      run_method; fields; reflexivity.
Qed.

Lemma update_Extended_eq (options : VisualUpdateOptions) (w : World) :
  update Extended options w
  = match options with
    | absent => Normal tt w
    | empty_categories => TypeError w
    | ready dv =>
      match stopAnimation w with
      | TypeError w' => TypeError w'
      | Normal _ w1 => update_after_stop dv w1
      end
    end.
Proof.
  unfold update. destruct options as [| |dv]; [reflexivity..|].
  unfold isDataReady. unfold bind at 1. unfold ret at 1. cbn [negb].
  unfold bind at 1.
  destruct (stopAnimation w) as [[] w1|w1]; [|reflexivity].
  unfold update_after_stop, visualTransform, installed, transformed.
  run_method. cbn [settings]. fields.
  destruct (autoStart (transitionSettings (visualSettings_of Extended (objects dv)))).
  - match goal with |- context [playAnimation Extended ?x] =>
      destruct (playAnimation Extended x) as [[] w3|w3] eqn:P end;
      [|reflexivity].
    assert (V : visualSettings w3 = Some (visualSettings_of Extended (objects dv))).
    { pose proof (playAnimation_frame Extended
        (set_visualSettings (Some (visualSettings_of Extended (objects dv)))
           (set_viewModel
              (Some {| dataPoints :=
                         categoryDataPoints (categories_0 dv) 0
                           (values (categories_0 dv));
                       settings := Some (visualSettings_of Extended (objects dv)) |})
              w1))) as (_ & F & _).
      rewrite P in F. cbn [final] in F. fields. exact F. }
    rewrite V. unfold title_events, title_of.
    destruct (show (captionSettings (visualSettings_of Extended (objects dv))));
      run_method; fields; f_equal; world_eq; rewrite <- ?app_assoc; reflexivity.
  - fields. unfold title_events, title_of.
    destruct (show (captionSettings (visualSettings_of Extended (objects dv))));
      run_method; fields; f_equal; world_eq; rewrite <- ?app_assoc; reflexivity.
Qed.

(** ** What the loop of [playAnimation] sets *)

Lemma advance_timers_handles (h : nat) (now ls iv : Z) (idx : list Z) :
  map handle (advance_timers h now ls iv idx) = seq h (List.length idx).
Proof.
  revert h; induction idx as [|i idx IH]; intros h;
    cbn [advance_timers map List.length seq]; fields; [|rewrite IH];
    reflexivity.
Qed.

Lemma advance_timers_scheduled (h : nat) (now ls iv : Z) (idx : list Z) :
  map scheduled (advance_timers h now ls iv idx)
  = map (fun i => (advance i, (i - ls) * iv)) idx.
Proof.
  revert h; induction idx as [|i idx IH]; intros h;
    cbn [advance_timers map List.length seq]; fields; [|rewrite IH];
    reflexivity.
Qed.

Lemma advance_timers_In (h : nat) (now ls iv : Z) (idx : list Z) (t : Timer) :
  In t (advance_timers h now ls iv idx) ->
  exists i, In i idx /\ callback t = advance i
            /\ delay t = (i - ls) * iv
            /\ fires_at t = now + Z.max 0 (to_long ((i - ls) * iv)).
Proof.
  revert h; induction idx as [|i idx IH]; intros h; cbn [advance_timers In];
    [contradiction|].
  intros [<- | H].
  - exists i. fields. cbn [In]. auto.
  - destruct (IH _ H) as (j & Hj & R). exists j. auto.
Qed.

Lemma range_In (lo hi i : Z) : In i (range lo hi) <-> lo <= i < hi.
Proof.
  unfold range. rewrite in_map_iff. split.
  - intros (k & <- & Hk). apply in_seq in Hk. lia.
  - intros H. exists (Z.to_nat (i - lo)). split; [lia|].
    apply in_seq. lia.
Qed.

Lemma range_length (lo hi : Z) : List.length (range lo hi) = Z.to_nat (hi - lo).
Proof. unfold range. now rewrite length_map, length_seq. Qed.

Lemma range_from_0 (n : nat) : range 0 (Z.of_nat n) = map Z.of_nat (seq 0 n).
Proof.
  unfold range. rewrite Z.sub_0_r, Nat2Z.id. apply map_ext. intros k. lia.
Qed.

Lemma played_timers_handles (v : Variant) (vm : ViewModel) (s : VisualSettings)
    (w : World) :
  map handle (played_timers v vm s w)
  = seq (next_handle w) (List.length (played_timers v vm s w)).
Proof.
  unfold played_timers. rewrite map_app, length_app, seq_app.
  rewrite advance_timers_handles, advance_timers_length.
  destruct v; reflexivity.
Qed.

Lemma played_timers_In (v : Variant) (vm : ViewModel) (s : VisualSettings)
    (w : World) (t : Timer) :
  In t (played_timers v vm s w) ->
  (exists i, (match status w with Stop => 0 | _ => lastSelected w + 1 end) <= i
             /\ i < length_of vm /\ callback t = advance i)
  \/ (v = Extended /\ callback t = stopAnimationTimer).
Proof.
  unfold played_timers. rewrite in_app_iff. intros [H|H].
  - left. apply advance_timers_In in H. destruct H as (i & Hi & C & _).
    apply range_In in Hi. exists i. tauto.
  - right. destruct v; cbn [In] in H; [contradiction|].
    destruct H as [<-|[]]. split; reflexivity.
Qed.

(** Every timer of a call is due its delay after the call, at once when the
    delay is not positive. *)
Lemma played_timers_due (v : Variant) (vm : ViewModel) (s : VisualSettings)
    (w : World) (t : Timer) :
  In t (played_timers v vm s w) -> fires_at t = clock w + Z.max 0 (to_long (delay t)).
Proof.
  unfold played_timers. rewrite in_app_iff. intros [H|H].
  - apply advance_timers_In in H. destruct H as (i & _ & _ & -> & ->).
    reflexivity.
  - destruct v; cbn [In] in H; [contradiction|].
    destruct H as [<-|[]]. reflexivity.
Qed.

(** ** Every reachable world satisfies the invariant *)

Ltac unfold_inv :=
  unfold cursor_reset, idle_queue, handles_kept, handles_fresh, model_present,
    settings_agree, settings_full, no_terminal, cursor_inside, targets_inside,
    cursor_nonneg, targets_nonneg in *.

Lemma Inv_constructed (v : Variant) : Inv v constructed.
Proof.
  constructor; unfold_inv; unfold constructed; fields; cbn [In];
    try tauto; try congruence; try lia.
  split; [apply NoDup_nil | cbn [In]; tauto].
Qed.

Lemma NoDup_app_seq (hs : list nat) (n k : nat) :
  NoDup hs -> (forall h, In h hs -> (h < n)%nat) -> NoDup (hs ++ seq n k).
Proof.
  intros Hd Hlt. induction hs as [|h hs IH]; cbn [app].
  - apply seq_NoDup.
  - inversion Hd as [|? ? Hn Hd']; subst. constructor.
    + rewrite in_app_iff, in_seq. intros [H|H]; [contradiction|].
      specialize (Hlt h (or_introl eq_refl)). lia.
    + apply IH; [exact Hd'|]. intros x Hx. apply Hlt. right. exact Hx.
Qed.

(** [playAnimation], run from a world that need not have an empty queue:
    what it needs of the world and what it establishes. *)
Lemma Inv_played (v : Variant) (w : World) (vm : ViewModel) (s : VisualSettings) :
  viewModel w = Some vm -> settings vm = Some s ->
  cursor_reset w -> handles_kept w -> handles_fresh w -> settings_agree w ->
  settings_full v w -> no_terminal v w -> cursor_inside v w ->
  targets_inside v w -> cursor_nonneg w -> targets_nonneg w ->
  Inv v (set_status Play
           (add_timers (played_timers v vm s w)
              (set_events (events w ++ play_opacity) w))).
Proof.
  intros Hvm Hs R K F A SF NT CI TI CN TN.
  constructor; unfold_inv; unfold add_timers; fields; intros.
  - discriminate.
  - congruence.
  - rewrite in_app_iff in *. destruct H as [H|H].
    + left. now apply K.
    + right. now apply in_map.
  - destruct F as [F1 F2]. split.
    + rewrite map_app, played_timers_handles. apply NoDup_app_seq; [exact F1|].
      intros h Hh. apply in_map_iff in Hh. destruct Hh as (t & <- & Ht).
      now apply F2.
    + intros t Ht. apply in_app_iff in Ht. destruct Ht as [Ht|Ht].
      * specialize (F2 t Ht). lia.
      * apply (in_map handle) in Ht. rewrite played_timers_handles in Ht.
        apply in_seq in Ht. lia.
  - congruence.
  - exact A.
  - now apply SF.
  - apply in_app_iff in H0. destruct H0 as [H0|H0]; [now apply NT|].
    apply played_timers_In in H0. destruct H0 as [(i & _ & _ & C)|[E _]];
      congruence.
  - now apply CI.
  - apply in_app_iff in H1. destruct H1 as [H1|H1]; [now apply (TI H vm0 t)|].
    apply played_timers_In in H1.
    destruct H1 as [(j & L & U & C)|[_ C]]; [|congruence].
    assert (j = i) by congruence. subst j.
    assert (vm0 = vm) by congruence. subst vm0.
    split; [|exact U].
    destruct (status w) eqn:St; lia.
  - exact CN.
  - apply in_app_iff in H. destruct H as [H|H]; [now apply (TN t)|].
    apply played_timers_In in H.
    destruct H as [(j & L & U & C)|[_ C]]; [|congruence].
    assert (j = i) by congruence. subst j.
    destruct (status w) eqn:St; lia.
Qed.

(** The invariant reads neither the clock nor the sink calls. *)
Lemma Inv_frame (v : Variant) (w w' : World) :
  status w' = status w -> lastSelected w' = lastSelected w ->
  viewModel w' = viewModel w -> visualSettings w' = visualSettings w ->
  timers w' = timers w -> pending w' = pending w ->
  next_handle w' = next_handle w ->
  Inv v w -> Inv v w'.
Proof.
  intros E1 E2 E3 E4 E5 E6 E7 [R I K F P A SF NT CI TI CN TN].
  constructor; unfold_inv; rewrite ?E1, ?E2, ?E3, ?E4, ?E5, ?E6, ?E7;
    assumption.
Qed.

Lemma NoDup_map_filter {A B : Type} (g : A -> B) (f : A -> bool) (l : list A) :
  NoDup (map g l) -> NoDup (map g (filter f l)).
Proof.
  induction l as [|a l IH]; cbn [map filter]; intros H; [exact H|].
  inversion H as [|? ? Hn Hd]; subst.
  destruct (f a); cbn [map]; [|now apply IH].
  constructor; [|now apply IH].
  intros C. apply Hn. apply in_map_iff in C. destruct C as (x & E & Hx).
  apply filter_In in Hx. apply in_map_iff. exists x. tauto.
Qed.

(** Taking timers off the queue while the status is [Play]. *)
Lemma Inv_filter (v : Variant) (w : World) (f : Timer -> bool) :
  status w = Play -> Inv v w ->
  Inv v (set_pending (filter f (pending w)) w).
Proof.
  intros St [R I K F P A SF NT CI TI CN TN].
  constructor; unfold_inv; fields; try assumption.
  - congruence.
  - intros t Ht. apply filter_In in Ht. now apply K.
  - destruct F as [F1 F2]. split; [now apply NoDup_map_filter|].
    intros t Ht. apply filter_In in Ht. now apply F2.
  - intros E t Ht. apply filter_In in Ht. now apply NT.
  - intros E vm t i Hvm Ht. apply filter_In in Ht. now apply (TI E vm t).
  - intros t i Ht. apply filter_In in Ht. now apply (TN t).
Qed.

Lemma pending_cleared (v : Variant) (w : World) :
  Inv v w -> pending (cleared w) = [].
Proof.
  intros H. unfold cleared. fields. apply clear_owned.
  apply (inv_handles_kept H).
Qed.

(** An empty queue satisfies every clause on pending timers. *)
Lemma Inv_emptied (v : Variant) (w : World) :
  Inv v w -> Inv v (set_pending [] w).
Proof.
  intros [R I K F P A SF NT CI TI CN TN].
  constructor; unfold_inv; fields; try assumption; cbn [In map]; try tauto.
  split; [apply NoDup_nil | tauto].
Qed.

Lemma Inv_cleared (v : Variant) (w : World) : Inv v w -> Inv v (cleared w).
Proof.
  intros H. assert (E := pending_cleared H).
  apply (Inv_frame (w := set_pending [] w)); fields;
    try reflexivity; [exact E | now apply Inv_emptied].
Qed.

Lemma Inv_stopAnimation (v : Variant) (w : World) :
  Inv v w -> Inv v (final (stopAnimation w)).
Proof.
  intros H. rewrite stopAnimation_eq.
  destruct (status w) eqn:St; [| |exact H].
  all: destruct (visualSettings w) as [vs|] eqn:Vs; cbn [final];
    [|apply (Inv_frame (w := cleared w)); fields; try reflexivity;
      now apply Inv_cleared].
  all: pose proof (Inv_cleared H) as [R I K F P A SF NT CI TI CN TN];
    pose proof (pending_cleared H) as E;
    constructor; unfold_inv; unfold stopped in *; fields; try assumption;
    try congruence; try tauto; try lia.
Qed.

Lemma Inv_pauseAnimation (v : Variant) (w : World) :
  Inv v w -> Inv v (final (pauseAnimation w)).
Proof.
  intros H. rewrite pauseAnimation_eq.
  destruct (status w) eqn:St; cbn [final]; try exact H.
  pose proof (pending_cleared H) as E.
  assert (Pr : viewModel w <> None)
    by (apply (inv_model_present H); congruence).
  pose proof (Inv_cleared H) as [R I K F P A SF NT CI TI CN TN].
  constructor; unfold_inv; unfold paused, cleared in *; fields;
    try assumption; try congruence; try tauto.
Qed.

(** Moving the cursor inside the sequence while the status is not [Stop]. *)
Lemma Inv_moved (v : Variant) (w : World) (i : Z) :
  status w <> Stop -> 0 <= i ->
  (v = Extended -> forall vm, viewModel w = Some vm -> 0 <= i < length_of vm) ->
  Inv v w -> Inv v (set_lastSelected i w).
Proof.
  intros St Nn B [R I K F P A SF NT CI TI CN TN].
  constructor; unfold_inv; fields; try assumption; try tauto.
  intros E vm Hvm. right. now apply B.
Qed.

Lemma Inv_step (v : Variant) (d : Z) (w : World) :
  Inv v w -> Inv v (final (step d w)).
Proof.
  intros H. rewrite step_eq.
  destruct (status w) eqn:St; try exact H.
  destruct (viewModel w) as [vm|] eqn:Hvm; [|exact H].
  destruct ((lastSelected w + d <? 0) || (lastSelected w + d >? length_of vm - 1))
    eqn:B; [exact H|].
  apply orb_false_iff in B. destruct B as [B1 B2].
  assert (M : Inv v (set_lastSelected (lastSelected w + d) w)).
  { apply Inv_moved; [congruence|lia| |exact H].
    intros _ vm' E. assert (vm' = vm) by congruence. subst vm'. lia. }
  destruct (nth_error (dataPoints vm) (Z.to_nat (lastSelected w + d))) as [dp|];
    [|exact M].
  destruct (visualSettings w) as [vs|]; cbn [final]; unfold shown.
  - apply (Inv_frame (w := set_lastSelected (lastSelected w + d) w)); fields;
      try reflexivity; [congruence | exact M].
  - apply (Inv_frame (w := set_lastSelected (lastSelected w + d) w)); fields;
      try reflexivity; exact M.
Qed.

Lemma Inv_playAnimation (v : Variant) (w : World) :
  Inv v w -> Inv v (final (playAnimation v w)).
Proof.
  intros H.
  destruct (playAnimation_cases v w)
    as [[_ E]|[(_ & vm & s & Hvm & Hs & E)|(_ & _ & E)]]; rewrite E; cbn [final].
  - exact H.
  - destruct H. now apply Inv_played.
  - apply (Inv_frame (w := w)); fields; try reflexivity; exact H.
Qed.

(** The closure of a timer that was pending in a world satisfying the
    invariant, run once the timer is off the queue. *)
Lemma Inv_run_callback (v : Variant) (cb : Callback) (w : World) :
  status w = Play ->
  (forall i, cb = advance i -> 0 <= i) ->
  (forall i, cb = advance i -> v = Extended ->
             forall vm, viewModel w = Some vm -> 0 <= i < length_of vm) ->
  (cb = stopAnimationTimer -> v = Extended) ->
  Inv v w -> Inv v (final (run_callback v cb w)).
Proof.
  intros St Hn Ha Ht H. destruct cb as [i|].
  - rewrite run_callback_advance_eq.
    destruct (viewModel w) as [vm|] eqn:Hvm; [|exact H].
    destruct (i <? 0); [exact H|].
    destruct (nth_error (dataPoints vm) (Z.to_nat i)) as [dp|]; [|exact H].
    assert (M : Inv v (set_lastSelected i w)).
    { apply Inv_moved; [congruence|now apply Hn| |exact H].
      intros E vm' Hvm'. apply (Ha i eq_refl E). congruence. }
    destruct (visualSettings w) as [vs|]; cbn [final]; unfold shown;
      apply (Inv_frame (w := set_lastSelected i w)); fields;
        try reflexivity; exact M.
  - rewrite run_callback_stopAnimationTimer_eq.
    destruct (visualSettings w) as [vs|] eqn:Vs; [|exact H].
    destruct (loop (transitionSettings vs)); [|now apply Inv_stopAnimation].
    destruct (viewModel w) as [vm|] eqn:Hvm;
      [|exfalso; apply (inv_model_present H); congruence].
    assert (Hs : settings vm = Some vs).
    { rewrite <- Vs. rewrite (inv_settings_agree H), Hvm. reflexivity. }
    set (w2 := set_lastSelected 0 (set_status Stop w)).
    assert (E : playAnimation v w2
                = Normal tt
                    (set_status Play
                       (add_timers (played_timers v vm vs w2)
                          (set_events (events w2 ++ play_opacity) w2)))).
    { apply playAnimation_runs; unfold w2; fields;
        [congruence | exact Hvm | exact Hs]. }
    rewrite E. cbn [final]. destruct H as [R I K F P A SF NT CI TI CN TN].
    apply Inv_played; unfold w2; unfold_inv; fields; try assumption;
      try tauto; try lia.
Qed.

Lemma earliest_In (ps : list Timer) (t : Timer) :
  earliest ps = Some t -> In t ps.
Proof.
  revert t; induction ps as [|u ps IH]; intros t; cbn [earliest];
    [discriminate|].
  destruct (earliest ps) as [x|].
  - destruct (fires_at u <=? fires_at x); intros E; injection E as <-.
    + now left.
    + right. now apply IH.
  - intros E; injection E as <-. now left.
Qed.

Lemma Inv_fire (v : Variant) (w : World) :
  Inv v w -> Inv v (final (fire v w)).
Proof.
  intros H. unfold fire.
  destruct (earliest (pending w)) as [t|] eqn:E; [|exact H].
  apply earliest_In in E.
  assert (St : status w = Play).
  { destruct (status w) eqn:St; [reflexivity|exfalso..];
      rewrite (inv_idle_queue H) in E by congruence; exact E. }
  apply Inv_run_callback.
  - fields. exact St.
  - intros i C. pose proof (inv_targets_nonneg H) as TN.
    unfold targets_nonneg in TN. eapply TN; eauto.
  - intros i C Ev vm Hvm. fields.
    pose proof (inv_targets_inside H) as TI. unfold targets_inside in TI.
    eapply TI; eauto.
  - intros C. destruct v; [|reflexivity].
    exfalso. pose proof (inv_no_terminal H) as NT. unfold no_terminal in NT.
    eapply NT; eauto.
  - match goal with |- Inv v (set_clock ?c (set_pending (filter ?f _) w)) =>
      apply (Inv_frame (w := set_pending (filter f (pending w)) w)) end;
      fields; try reflexivity.
    now apply Inv_filter.
Qed.

Lemma Inv_wait (v : Variant) (dt : Z) (w : World) :
  Inv v w -> Inv v (final (wait dt w)).
Proof.
  intros H. unfold wait.
  destruct ((0 <=? dt) && forallb (fun t => clock w + dt <=? fires_at t) (pending w));
    cbn [final]; [|exact H].
  apply (Inv_frame (w := w)); fields; try reflexivity; exact H.
Qed.

Lemma stopAnimation_Normal (v : Variant) (w w1 : World) (a : unit) :
  Inv v w -> stopAnimation w = Normal a w1 ->
  status w1 = Stop /\ pending w1 = [] /\ lastSelected w1 = 0.
Proof.
  intros H. rewrite stopAnimation_eq.
  destruct (status w) eqn:St.
  1, 2: destruct (visualSettings w) as [vs|]; [|discriminate];
    intros E; injection E as E' E''; subst w1; unfold stopped; fields;
    repeat split; apply (pending_cleared H).
  intros E; injection E as E' E''; subst w1. repeat split; try assumption.
  - apply (inv_idle_queue H). congruence.
  - now apply (inv_cursor_reset H).
Qed.

(** Storing the view model of ready data in a stopped world. *)
Lemma Inv_installed_stopped (v : Variant) (dv : DataView) (w : World) :
  status w = Stop -> Inv v w -> Inv v (installed (transformed v dv) w).
Proof.
  intros St H.
  assert (E : pending w = []) by (apply (inv_idle_queue H); congruence).
  assert (L := inv_cursor_reset H St).
  destruct H as [R I K F P A SF NT CI TI CN TN].
  constructor; unfold_inv; unfold installed, transformed in *; fields;
    cbn [settings]; try assumption; try tauto; try congruence.
  - intros _ vm Hvm. injection Hvm as <-. cbn [settings]. discriminate.
  - rewrite E. cbn [In]. tauto.
Qed.

(** The basic [update] stores whatever [visualTransform] answers. *)
Lemma Inv_installed_Basic (vm : ViewModel) (w : World) :
  Inv Basic w -> Inv Basic (installed vm w).
Proof.
  intros [R I K F P A SF NT CI TI CN TN].
  constructor; unfold_inv; unfold installed in *; fields;
    try assumption; try tauto; try congruence.
Qed.

Lemma Inv_update (v : Variant) (options : VisualUpdateOptions) (w : World) :
  Inv v w -> Inv v (final (update v options w)).
Proof.
  intros H. destruct v.
  - rewrite update_Basic_eq. destruct options as [| |dv]; cbn [final].
    + now apply Inv_installed_Basic.
    + exact H.
    + cbv zeta.
      apply (Inv_frame (w := installed (transformed Basic dv) w));
        unfold installed; fields; try reflexivity.
      now apply Inv_installed_Basic.
  - rewrite update_Extended_eq. destruct options as [| |dv]; [exact H..|].
    pose proof (Inv_stopAnimation H) as H1.
    destruct (stopAnimation w) as [[] w1|w1] eqn:S; cbn [final] in H1;
      [|exact H1].
    destruct (stopAnimation_Normal H S) as (St & _).
    pose proof (Inv_installed_stopped dv St H1) as H2.
    unfold update_after_stop. cbv zeta.
    destruct (autoStart (transitionSettings (visualSettings_of Extended (objects dv)))).
    + pose proof (Inv_playAnimation H2) as H3.
      destruct (playAnimation Extended (installed (transformed Extended dv) w1))
        as [[] w3|w3]; cbn [final] in *; [|exact H3].
      apply (Inv_frame (w := w3)); fields; try reflexivity; exact H3.
    + cbn [final].
      apply (Inv_frame (w := installed (transformed Extended dv) w1));
        fields; try reflexivity; exact H2.
Qed.

Lemma Inv_handle_input (v : Variant) (i : Input) (w : World) :
  Inv v w -> Inv v (final (handle_input v i w)).
Proof.
  intros H. destruct i; cbn [handle_input].
  - now apply Inv_playAnimation.
  - now apply Inv_stopAnimation.
  - now apply Inv_pauseAnimation.
  - now apply Inv_step.
  - now apply Inv_step.
  - now apply Inv_update.
  - now apply Inv_fire.
  - now apply Inv_wait.
Qed.

(** Every reachable world satisfies the invariant. *)
Lemma reachable_Inv (v : Variant) (w : World) : reachable v w -> Inv v w.
Proof.
  induction 1 as [|w i _ IH]; [apply Inv_constructed|].
  now apply Inv_handle_input.
Qed.

Lemma reachable_run (v : Variant) (inputs : list Input) (w : World) :
  reachable v w -> reachable v (run v inputs w).
Proof.
  revert w; induction inputs as [|i inputs IH]; intros w H; cbn [run];
    [exact H|].
  apply IH. now constructor.
Qed.

(** ** Facts used by several claims *)

(** The sample worlds are reachable. *)
Lemma reachable_loaded_abc (v : Variant) (caption : bool) :
  reachable v (loaded_abc v caption).
Proof. apply reachable_run, reach_constructed. Qed.

Lemma reachable_playing_abc (v : Variant) (caption : bool) :
  reachable v (playing_abc v caption).
Proof. apply reachable_run, reachable_loaded_abc. Qed.

Lemma reachable_paused_abc (v : Variant) (caption : bool) :
  reachable v (paused_abc v caption).
Proof. apply reachable_run, reachable_playing_abc. Qed.

Lemma played_timers_from_Stop (v : Variant) (w : World) (vm : ViewModel)
    (s : VisualSettings) :
  status w = Stop -> lastSelected w = 0 ->
  map scheduled (played_timers v vm s w) = full_schedule v vm s.
Proof.
  intros St L. unfold played_timers, full_schedule.
  rewrite St, L, map_app, advance_timers_scheduled.
  unfold length_of. rewrite range_from_0, map_map. f_equal.
  - apply map_ext. intros k. f_equal. lia.
  - destruct v; [reflexivity|]. unfold terminal_timer, scheduled.
    cbn [map callback delay]. do 2 f_equal. lia.
Qed.

(** What the closure of an advance timer does on an item of the sequence. *)
Lemma run_callback_advance_item (v : Variant) (w : World) (vm : ViewModel)
    (vs : VisualSettings) (i : nat) (dp : CategoryDataPoint) :
  viewModel w = Some vm -> visualSettings w = Some vs ->
  nth_error (dataPoints vm) i = Some dp ->
  run_callback v (advance (Z.of_nat i)) w = Normal tt (shown vs dp (Z.of_nat i) w).
Proof.
  intros Hvm Vs N. rewrite run_callback_advance_eq, Hvm, Vs.
  destruct (Z.of_nat i <? 0) eqn:B; [apply Z.ltb_lt in B; lia|].
  now rewrite Nat2Z.id, N.
Qed.

(** Both cancellation paths leave the queue empty. *)
Lemma cancellation_drains (v : Variant) (w : World) :
  Inv v w ->
  pending (final (pauseAnimation w)) = []
  /\ pending (final (stopAnimation w)) = [].
Proof.
  intros R.
  assert (I : status w <> Play -> pending w = []) by apply (inv_idle_queue R).
  split.
  - rewrite pauseAnimation_eq.
    destruct (status w) eqn:St; cbn [final];
      [unfold paused; fields; apply (pending_cleared R)
      | apply I; congruence..].
  - rewrite stopAnimation_eq.
    destruct (status w) eqn:St;
      [destruct (visualSettings w); cbn [final]; unfold stopped; fields;
       apply (pending_cleared R)..
      | apply I; congruence].
Qed.

(** In the extended file the settings are there whenever the status is not
    [Stop]. *)
Lemma Extended_settings_present (w : World) :
  Inv Extended w -> status w <> Stop ->
  exists vm vs, viewModel w = Some vm /\ settings vm = Some vs
                /\ visualSettings w = Some vs.
Proof.
  intros H St.
  pose proof (inv_settings_agree H) as A. unfold settings_agree in A.
  destruct (viewModel w) as [vm|] eqn:Hvm;
    [|exfalso; apply (inv_model_present H St); exact Hvm].
  destruct (settings vm) as [vs|] eqn:Hs;
    [|exfalso; apply (inv_settings_full H eq_refl Hvm); exact Hs].
  exists vm, vs. split; [reflexivity|]. split; [exact Hs | exact A].
Qed.

(** In the extended file [stopAnimation] always returns, in a stopped world
    with an empty queue. *)
Lemma Extended_stopAnimation_returns (w : World) :
  Inv Extended w ->
  exists w1, stopAnimation w = Normal tt w1
             /\ status w1 = Stop /\ lastSelected w1 = 0 /\ pending w1 = []
             /\ timers w1 = timers w /\ next_handle w1 = next_handle w
             /\ clock w1 = clock w.
Proof.
  intros H. destruct (status w) eqn:St.
  1, 2: destruct (@Extended_settings_present w H) as (vm & vs & _ & _ & Vs);
    [congruence|]; exists (stopped vs w);
    (split; [rewrite stopAnimation_eq, St, Vs; reflexivity|]);
    unfold stopped, cleared; fields; repeat split; try reflexivity;
    apply (pending_cleared H).
  exists w. split; [rewrite stopAnimation_eq, St; reflexivity|].
  repeat split; try assumption; try reflexivity.
  - now apply (inv_cursor_reset H).
  - apply (inv_idle_queue H). congruence.
Qed.

(** ** A whole cycle of the extended file *)

Lemma earliest_head (t : Timer) (rest : list Timer) :
  (forall u, In u rest -> fires_at t <= fires_at u) ->
  earliest (t :: rest) = Some t.
Proof.
  intros H. cbn [earliest]. destruct (earliest rest) as [u|] eqn:E;
    [|reflexivity].
  apply earliest_In in E. apply H in E.
  destruct (Z.leb_spec (fires_at t) (fires_at u)); [reflexivity|lia].
Qed.

(** The timer at the head of the queue fires when none behind it is due
    earlier. *)
Lemma fire_head (v : Variant) (w : World) (t : Timer) (rest : list Timer) :
  pending w = t :: rest ->
  (forall u, In u rest -> fires_at t <= fires_at u) ->
  (forall u, In u rest -> handle u <> handle t) ->
  fire v w
  = run_callback v (callback t)
      (set_clock (Z.max (clock w) (fires_at t)) (set_pending rest w)).
Proof.
  intros P Hd Hh. unfold fire. rewrite P, earliest_head by exact Hd.
  cbn [filter]. rewrite Nat.eqb_refl. cbn [negb].
  rewrite filter_all_true; [reflexivity|].
  intros u Hu. apply negb_true_iff, Nat.eqb_neq. now apply Hh.
Qed.

Lemma advance_timers_handle_ge (h : nat) (now ls iv : Z) (idx : list Z)
    (t : Timer) :
  In t (advance_timers h now ls iv idx) -> (h <= handle t)%nat.
Proof.
  revert h; induction idx as [|i idx IH]; intros h; cbn [advance_timers In];
    [contradiction|].
  intros [<-|H]; [fields; lia|]. apply IH in H. lia.
Qed.

(** A delay within the 32-bit range is kept as it is. *)
Lemma to_long_fits (d : Z) : fits_long d -> to_long d = d.
Proof.
  unfold fits_long, to_long. intros H.
  rewrite Z.mod_small; lia.
Qed.

(** The delays of one call of [playAnimation] lie between 0 and the longest
    of them. *)
Lemma fits_long_between (n iv a : Z) :
  fits_long (n * iv) -> 0 <= a <= n -> fits_long (a * iv).
Proof.
  unfold fits_long. intros F H.
  destruct (Z.le_gt_cases 0 iv) as [P|P].
  - assert (0 <= a * iv) by (apply Z.mul_nonneg_nonneg; lia).
    assert (a * iv <= n * iv) by (apply Z.mul_le_mono_nonneg_r; lia).
    lia.
  - assert (a * iv <= 0) by (apply Z.mul_nonneg_nonpos; lia).
    assert (n * iv <= a * iv) by (apply Z.mul_le_mono_nonpos_r; lia).
    lia.
Qed.

(** The format pane offers intervals from 500 to 5000 milliseconds: with
    them the delays of a sequence of up to 429496 items fit. *)
Lemma fits_long_format_pane (n iv : Z) :
  500 <= iv <= 5000 -> 0 <= n <= 429496 -> fits_long (n * iv).
Proof. unfold fits_long. intros Hiv Hn. nia. Qed.

Lemma due_monotone_plain (c iv a b : Z) :
  0 <= a <= b -> c + Z.max 0 (a * iv) <= c + Z.max 0 (b * iv).
Proof.
  intros H.
  assert (a * iv <= b * iv \/ (a * iv <= 0 /\ b * iv <= 0)).
  { destruct (Z.le_gt_cases 0 iv) as [P|P].
    - left. apply Z.mul_le_mono_nonneg_r; lia.
    - right. split; apply Z.mul_nonneg_nonpos; lia. }
  lia.
Qed.

Lemma due_monotone (c iv n a b : Z) :
  fits_long (n * iv) -> 0 <= a <= b -> b <= n ->
  c + Z.max 0 (to_long (a * iv)) <= c + Z.max 0 (to_long (b * iv)).
Proof.
  intros F H Hb.
  rewrite !to_long_fits by (apply (@fits_long_between n iv _ F); lia).
  now apply due_monotone_plain.
Qed.

Lemma skipn_nth_error {A : Type} (l : list A) (k : nat) (x : A) :
  nth_error l k = Some x -> skipn k l = x :: skipn (S k) l.
Proof.
  revert l; induction k as [|k IH]; intros [|a l]; cbn [nth_error skipn];
    try discriminate.
  - intros E. injection E as ->. reflexivity.
  - intros E. now apply IH.
Qed.

Lemma fires_S (v : Variant) (n : nat) (w : World) :
  fires v (S n) w = fires v n (final (fire v w)).
Proof. reflexivity. Qed.

Lemma fires_S_end (v : Variant) (n : nat) (w : World) :
  fires v (S n) w = final (fire v (fires v n w)).
Proof.
  revert w; induction n as [|n IH]; intros w; [reflexivity|].
  rewrite fires_S, IH. reflexivity.
Qed.

(** The advances for the items from [j] on fire in the order of their
    indices and show the items one after the other; the timer [T] set after
    them at the same instant for the end of the sequence is still pending
    when they are through. *)
Lemma advances_drain (v : Variant) (vm : ViewModel) (s : VisualSettings)
    (c : Z) (T : Timer) :
  forall (n j h : nat) (w : World),
    fits_long (length_of vm * timeInterval (transitionSettings s)) ->
    (j + n = List.length (dataPoints vm))%nat ->
    viewModel w = Some vm -> visualSettings w = Some s ->
    pending w
    = advance_timers h c 0 (timeInterval (transitionSettings s))
        (map Z.of_nat (seq j n)) ++ [T] ->
    (h + n <= handle T)%nat ->
    fires_at T
    = c + Z.max 0
            (to_long ((length_of vm - 0) * timeInterval (transitionSettings s))) ->
    pending (fires v n w) = [T]
    /\ viewModel (fires v n w) = Some vm
    /\ visualSettings (fires v n w) = Some s
    /\ status (fires v n w) = status w
    /\ timers (fires v n w) = timers w
    /\ next_handle (fires v n w) = next_handle w
    /\ events (fires v n w)
       = events w ++ flat_map (item_events s) (skipn j (dataPoints vm)).
Proof.
  induction n as [|n IH]; intros j h w Fit Hj Hvm Vs P Hh Hf.
  - cbn [seq map advance_timers app] in P. unfold fires. cbn [repeat run].
    repeat split; try assumption; try reflexivity.
    replace j with (List.length (dataPoints vm)) by lia.
    rewrite skipn_all. cbn [flat_map]. now rewrite app_nil_r.
  - cbn [seq map advance_timers app] in P.
    destruct (nth_error (dataPoints vm) j) as [dp|] eqn:N;
      [|apply nth_error_None in N; lia].
    rewrite fires_S.
    rewrite (@fire_head v w _ _ P).
    + cbn [callback].
      rewrite (@run_callback_advance_item v _ vm s j dp); fields;
        try assumption.
      cbn [final].
      match goal with |- context [fires v n ?x] => set (w1 := x) end.
      destruct (IH (S j) (S h) w1) as (E1 & E2 & E3 & E4 & E5 & E6 & E7);
        [exact Fit | lia | unfold w1, shown; fields; assumption
         | unfold w1, shown; fields; assumption
         | unfold w1, shown; fields; reflexivity | lia | exact Hf |].
      rewrite E1, E2, E3, E4, E5, E6, E7. unfold w1, shown; fields.
      repeat split; try reflexivity.
      rewrite (@skipn_nth_error _ _ _ _ N). cbn [flat_map].
      now rewrite <- app_assoc.
    + intros u Hu. fields. apply in_app_iff in Hu. destruct Hu as [Hu|Hu].
      * apply advance_timers_In in Hu. destruct Hu as (i & Hi & _ & _ & ->).
        apply in_map_iff in Hi. destruct Hi as (k & <- & Hk).
        apply in_seq in Hk.
        apply (@due_monotone _ _ (length_of vm) _ _ Fit); unfold length_of; lia.
      * destruct Hu as [<-|[]]. rewrite Hf.
        apply (@due_monotone _ _ (length_of vm) _ _ Fit); unfold length_of; lia.
    + intros u Hu. fields. apply in_app_iff in Hu. destruct Hu as [Hu|Hu].
      * apply advance_timers_handle_ge in Hu. lia.
      * destruct Hu as [<-|[]]. lia.
Qed.

(** With [loop] on, the [stopAnimationTimer] firing alone in the queue
    starts the next cycle. *)
Lemma terminal_restarts (vm : ViewModel) (s : VisualSettings) (w : World)
    (T : Timer) :
  viewModel w = Some vm -> visualSettings w = Some s -> settings vm = Some s ->
  loop (transitionSettings s) = true ->
  pending w = [T] -> callback T = stopAnimationTimer ->
  cycle_start vm s (final (fire Extended w))
  /\ events (final (fire Extended w)) = events w ++ play_opacity.
Proof.
  intros Hvm Vs Hs Lp P C.
  rewrite (@fire_head Extended w _ _ P); [|intros u []..].
  rewrite C, run_callback_stopAnimationTimer_eq. fields. rewrite Vs, Lp.
  match goal with |- context [playAnimation Extended ?x] => set (w2 := x) end.
  rewrite (@playAnimation_runs Extended w2 vm s);
    [|unfold w2; fields; congruence|exact Hvm|exact Hs].
  cbn [final]. unfold cycle_start, add_timers; fields.
  unfold w2 at 2 3 4 5 6; fields.
  repeat split; try assumption; try reflexivity.
  exists (next_handle w), (Z.max (clock w) (fires_at T)).
  unfold played_timers, w2; fields. unfold length_of.
  now rewrite range_from_0, advance_timers_length, length_map, length_seq.
Qed.

(** One cycle: every item is shown in turn, then the sequence is scheduled
    again from index 0. *)
Lemma one_cycle (vm : ViewModel) (s : VisualSettings) (w : World) :
  fits_long (length_of vm * timeInterval (transitionSettings s)) ->
  settings vm = Some s -> loop (transitionSettings s) = true ->
  cycle_start vm s w ->
  cycle_start vm s (fires Extended (S (List.length (dataPoints vm))) w)
  /\ events (fires Extended (S (List.length (dataPoints vm))) w)
     = events w ++ flat_map (item_events s) (dataPoints vm) ++ play_opacity.
Proof.
  intros Fit Hs Lp (St & L & Hvm & Vs & h & c & P).
  destruct (@advances_drain Extended vm s c _ _ 0%nat h w Fit eq_refl Hvm Vs P)
    as (E1 & E2 & E3 & E4 & E5 & E6 & E7);
    [unfold terminal_timer; fields; lia | reflexivity |].
  rewrite fires_S_end.
  destruct (@terminal_restarts vm s _ _ E2 E3 Hs Lp E1 eq_refl) as [CS Ev].
  split; [exact CS|]. rewrite Ev, E7. cbn [skipn].
  now rewrite <- app_assoc.
Qed.

(** Any number of cycles. *)
Lemma many_cycles (vm : ViewModel) (s : VisualSettings) (w : World) (k : nat) :
  fits_long (length_of vm * timeInterval (transitionSettings s)) ->
  settings vm = Some s -> loop (transitionSettings s) = true ->
  cycle_start vm s w ->
  cycle_start vm s
    (Nat.iter k (fires Extended (S (List.length (dataPoints vm)))) w)
  /\ events (Nat.iter k (fires Extended (S (List.length (dataPoints vm)))) w)
     = events w
       ++ List.concat (repeat (flat_map (item_events s) (dataPoints vm) ++ play_opacity) k).
Proof.
  intros Fit Hs Lp CS. induction k as [|k [IH1 IH2]].
  - cbn [Nat.iter nat_rect repeat List.concat]. split; [exact CS|].
    now rewrite app_nil_r.
  - change (Nat.iter (S k) ?f w) with (f (Nat.iter k f w)).
    destruct (@one_cycle vm s _ Fit Hs Lp IH1) as [C E]. split; [exact C|].
    rewrite E, IH2, <- app_assoc. f_equal.
    rewrite <- (Nat.add_1_r k).
    rewrite repeat_app, concat_app. cbn [repeat List.concat].
    now rewrite app_nil_r.
Qed.

Lemma cycle_start_schedule (vm : ViewModel) (s : VisualSettings) (w : World) :
  cycle_start vm s w ->
  status w = Play /\ lastSelected w = 0
  /\ map scheduled (pending w) = full_schedule Extended vm s.
Proof.
  intros (St & L & _ & _ & h & c & P). split; [exact St|]. split; [exact L|].
  rewrite P, map_app, advance_timers_scheduled, map_map. unfold full_schedule.
  f_equal.
  - apply map_ext. intros k. f_equal. lia.
  - unfold terminal_timer, scheduled, length_of. cbn [map callback delay].
    do 2 f_equal. lia.
Qed.

Lemma reachable_fires (v : Variant) (n : nat) (w : World) :
  reachable v w -> reachable v (fires v n w).
Proof. apply reachable_run. Qed.

Lemma reachable_cycles (v : Variant) (n k : nat) (w : World) :
  reachable v w -> reachable v (Nat.iter k (fires v n) w).
Proof.
  intros R. induction k as [|k IH]; [exact R|].
  change (Nat.iter (S k) ?f w) with (f (Nat.iter k f w)).
  now apply reachable_fires.
Qed.

(** [playAnimation] run in [Stop] opens a cycle. *)
Lemma play_from_Stop_starts_cycle (w : World) (vm : ViewModel)
    (s : VisualSettings) :
  Inv Extended w -> status w = Stop ->
  viewModel w = Some vm -> settings vm = Some s ->
  cycle_start vm s
    (set_status Play
       (add_timers (played_timers Extended vm s w)
          (set_events (events w ++ play_opacity) w))).
Proof.
  intros R St Hvm Hs.
  assert (P : pending w = []) by (apply (inv_idle_queue R); congruence).
  assert (L : lastSelected w = 0) by (apply (inv_cursor_reset R); exact St).
  assert (Vs : visualSettings w = Some s).
  { rewrite (inv_settings_agree R), Hvm. exact Hs. }
  unfold cycle_start, add_timers; fields.
  repeat split; try assumption; try reflexivity.
  exists (next_handle w), (clock w). rewrite P. cbn [app].
  unfold played_timers, length_of. rewrite St, L.
  now rewrite range_from_0, advance_timers_length, length_map, length_seq.
Qed.

(** ** A firing advance *)

Lemma earliest_nonempty (ps : list Timer) :
  ps <> [] -> exists t, earliest ps = Some t.
Proof.
  destruct ps as [|u ps]; [congruence|]. intros _. cbn [earliest].
  destruct (earliest ps) as [x|]; [destruct (fires_at u <=? fires_at x)|];
    eauto.
Qed.

(** Taking a pending timer out by its handle takes out that timer only. *)
Lemma filter_one_out (l : list Timer) (t : Timer) :
  NoDup (map handle l) -> In t l ->
  S (List.length (filter (fun u => negb (Nat.eqb (handle u) (handle t))) l))
  = List.length l.
Proof.
  induction l as [|a l IH]; cbn [map In filter List.length]; [contradiction|].
  intros H [->|Ht]; inversion H as [|? ? Hn Hd]; subst.
  - rewrite Nat.eqb_refl. cbn [negb]. f_equal.
    rewrite filter_all_true; [reflexivity|].
    intros u Hu. apply negb_true_iff, Nat.eqb_neq. intros E. apply Hn.
    rewrite <- E. now apply in_map.
  - destruct (Nat.eqb (handle a) (handle t)) eqn:E.
    + exfalso. apply Nat.eqb_eq in E. apply Hn. rewrite E. now apply in_map.
    + cbn [negb List.length]. f_equal. now apply IH.
Qed.

(** Whatever the closure of an advance does (it may raise), the host has
    taken its timer off the queue, and the closure touches neither the
    queue, nor the status, nor the view model, nor the handles. *)
Lemma fire_advance (v : Variant) (w : World) (t : Timer) (i : Z) :
  earliest (pending w) = Some t -> callback t = advance i ->
  pending (final (fire v w))
  = filter (fun u => negb (Nat.eqb (handle u) (handle t))) (pending w)
  /\ status (final (fire v w)) = status w
  /\ viewModel (final (fire v w)) = viewModel w
  /\ visualSettings (final (fire v w)) = visualSettings w
  /\ timers (final (fire v w)) = timers w
  /\ next_handle (final (fire v w)) = next_handle w.
Proof.
  intros E C. unfold fire. rewrite E, C, run_callback_advance_eq. fields.
  destruct (viewModel w) as [vm|] eqn:Hvm;
    [|cbn [final]; fields; rewrite Hvm; repeat split; reflexivity].
  destruct (i <? 0);
    [cbn [final]; fields; rewrite Hvm; repeat split; reflexivity|].
  destruct (nth_error (dataPoints vm) (Z.to_nat i));
    [|cbn [final]; fields; rewrite Hvm; repeat split; reflexivity].
  destruct (visualSettings w) eqn:Vs; cbn [final]; unfold shown; fields;
    rewrite Hvm, Vs; repeat split; reflexivity.
Qed.

(** A queue of [n] advances is empty after [n] firings, in whatever order
    the host runs them. *)
Lemma advances_all_fire (v : Variant) :
  forall (n : nat) (w : World),
    NoDup (map handle (pending w)) ->
    (forall t, In t (pending w) -> exists i, callback t = advance i) ->
    List.length (pending w) = n ->
    pending (fires v n w) = [] /\ status (fires v n w) = status w.
Proof.
  induction n as [|n IH]; intros w Nd Adv Len.
  - unfold fires. cbn [repeat run]. split; [|reflexivity].
    now apply length_zero_iff_nil.
  - destruct (@earliest_nonempty (pending w)) as (t & E).
    { intros P. rewrite P in Len. discriminate Len. }
    pose proof (earliest_In _ E) as Ht.
    destruct (Adv t Ht) as (i & C).
    destruct (@fire_advance v w t i E C) as (P1 & S1 & _).
    rewrite fires_S.
    destruct (IH (final (fire v w))) as (P2 & S2).
    + rewrite P1. now apply NoDup_map_filter.
    + intros u Hu. rewrite P1 in Hu. apply filter_In in Hu. apply Adv, Hu.
    + rewrite P1. pose proof (@filter_one_out (pending w) t Nd Ht). lia.
    + split; [exact P2|]. now rewrite S2.
Qed.

(** * The claims *)

(** C1, as amended: in [Stop], for a sequence of any length N,
    [playAnimation] sets exactly N advance timers, one for each index from
    0 to N - 1, the one for [i] with delay [i * timeInterval] (and the
    extended file one more timer after them).  The closure for [i], when it
    runs, selects item [i], sets the cursor to [i] and, when captions are
    shown, sets the caption to the label of item [i]; it makes no caption
    call when they are hidden. *)
Theorem play_from_Stop_schedules_every_item (v : Variant) (w : World)
    (vm : ViewModel) (s : VisualSettings) :
  reachable v w -> status w = Stop ->
  viewModel w = Some vm -> settings vm = Some s ->
  exists w',
    playAnimation v w = Normal tt w'
    /\ map scheduled (pending w') = full_schedule v vm s
    /\ List.length (filter (fun t => match callback t with
                                     | advance _ => true
                                     | stopAnimationTimer => false
                                     end) (pending w'))
       = List.length (dataPoints vm)
    /\ (forall t, In t (pending w') ->
                  fires_at t = clock w + Z.max 0 (to_long (delay t)))
    /\ viewModel w' = Some vm /\ visualSettings w' = Some s
    /\ forall (i : nat) (dp : CategoryDataPoint) (w2 : World),
         nth_error (dataPoints vm) i = Some dp ->
         viewModel w2 = Some vm -> visualSettings w2 = Some s ->
         exists w3,
           run_callback v (advance (Z.of_nat i)) w2 = Normal tt w3
           /\ lastSelected w3 = Z.of_nat i
           /\ events w3
              = events w2
                ++ Select (selectionId dp)
                   :: (if show (captionSettings s)
                       then [LabelText (category dp)] else []).
Proof.
  intros R St Hvm Hs. apply reachable_Inv in R.
  assert (P : pending w = []) by (apply (inv_idle_queue R); congruence).
  assert (L : lastSelected w = 0) by (apply (inv_cursor_reset R); exact St).
  assert (Vs : visualSettings w = Some s).
  { rewrite (inv_settings_agree R), Hvm. exact Hs. }
  exists (set_status Play
            (add_timers (played_timers v vm s w)
               (set_events (events w ++ play_opacity) w))).
  split; [apply playAnimation_runs; [congruence | exact Hvm | exact Hs]|].
  unfold add_timers; fields. rewrite P. cbn [app].
  split; [now apply played_timers_from_Stop|].
  split.
  { unfold played_timers. rewrite filter_app, length_app.
    rewrite filter_all_true.
    - rewrite advance_timers_length, range_length, St. unfold length_of.
      destruct v; cbn [filter terminal_timer callback List.length]; lia.
    - intros t Ht. apply advance_timers_In in Ht.
      destruct Ht as (i & _ & -> & _). reflexivity. }
  split; [intros t; apply played_timers_due|].
  split; [exact Hvm|]. split; [exact Vs|].
  intros i dp w2 N Hvm2 Vs2. exists (shown s dp (Z.of_nat i) w2).
  split; [now apply run_callback_advance_item with (vm := vm)|].
  unfold shown, item_events; fields. split; reflexivity.
Qed.

Lemma play_from_Stop_schedules_every_item_witness :
  exists w',
    playAnimation Extended (loaded_abc Extended true) = Normal tt w'
    /\ map scheduled (pending w')
       = [(advance 0, 0); (advance 1, 1000); (advance 2, 2000);
          (stopAnimationTimer, 3000)].
Proof.
  destruct (@play_from_Stop_schedules_every_item Extended
              (loaded_abc Extended true)
              (transformed Extended
                 {| categories_0 := abc;
                    objects := objects_with false false true 1000 |})
              (visualSettings_of Extended (objects_with false false true 1000))
              (reachable_loaded_abc Extended true))
    as (w' & E & S & _).
  - vm_compute. reflexivity.
  - vm_compute. reflexivity.
  - vm_compute. reflexivity.
  - exists w'. split; [exact E|]. rewrite S. vm_compute. reflexivity.
Defined.

(** C1, as stated, fails when captions are hidden: the closure for index 0
    selects "A", sets the cursor, and makes no caption call. *)
Lemma advance_without_caption :
  status (loaded_abc Basic false) = Stop
  /\ exists w' w3,
       playAnimation Basic (loaded_abc Basic false) = Normal tt w'
       /\ map scheduled (pending w')
          = [(advance 0, 0); (advance 1, 1000); (advance 2, 2000)]
       /\ run_callback Basic (advance 0) w' = Normal tt w3
       /\ lastSelected w3 = 0
       /\ events w3 = events w' ++ [Select (withCategory abc 0)]
       /\ ~ In (LabelText "A") (events w3).
Proof.
  split; [reflexivity|].
  eexists. eexists. split; [vm_compute; reflexivity|].
  split; [reflexivity|]. split; [vm_compute; reflexivity|].
  split; [reflexivity|]. split; [reflexivity|].
  cbn [events In]. intros H.
  repeat (destruct H as [H|H]; [discriminate H|]). exact H.
Qed.

(** C2, as amended: [playAnimation] returns at once when the status is
    [Play].  Otherwise, a view model being stored together with its
    settings, the starting index is 0 in [Stop] and [lastSelected + 1] in
    [Pause]; one advance timer is set for every index from the starting
    index to [length - 1] and for no other, the one for index [i] with the
    delay [(i - lastSelected) * timeInterval], the cursor being the one at
    the time of the call; then the status is [Play].  (The extended file
    sets its [stopAnimationTimer] after them.) *)
Theorem playAnimation_schedules_from_cursor (v : Variant) (w : World) :
  (status w = Play -> playAnimation v w = Normal tt w)
  /\ (forall vm s,
       status w <> Play -> viewModel w = Some vm -> settings vm = Some s ->
       let iv := timeInterval (transitionSettings s) in
       let startIndex :=
         match status w with Stop => 0 | _ => lastSelected w + 1 end in
       exists w' new,
         playAnimation v w = Normal tt w'
         /\ status w' = Play
         /\ lastSelected w' = lastSelected w
         /\ pending w' = pending w ++ new
         /\ (forall t, In t new ->
               fires_at t = clock w + Z.max 0 (to_long (delay t)))
         /\ map scheduled new
            = map (fun i => (advance i, (i - lastSelected w) * iv))
                  (range startIndex (length_of vm))
              ++ match v with
                 | Basic => []
                 | Extended =>
                   [(stopAnimationTimer, (length_of vm - lastSelected w) * iv)]
                 end
         /\ (forall i, In i (range startIndex (length_of vm))
                       <-> startIndex <= i <= length_of vm - 1)).
Proof.
  split; [apply playAnimation_Play|].
  intros vm s St Hvm Hs iv startIndex.
  exists (set_status Play
            (add_timers (played_timers v vm s w)
               (set_events (events w ++ play_opacity) w))),
         (played_timers v vm s w).
  split; [now apply playAnimation_runs|].
  unfold add_timers; fields.
  split; [reflexivity|]. split; [reflexivity|]. split; [reflexivity|].
  split; [intros t; apply played_timers_due|]. split.
  - unfold played_timers. rewrite map_app, advance_timers_scheduled.
    destruct v; reflexivity.
  - intros i. rewrite range_In. lia.
Qed.

Lemma playAnimation_schedules_from_cursor_witness :
  playAnimation Extended (playing_abc Extended true)
  = Normal tt (playing_abc Extended true)
  /\ exists w' new,
       playAnimation Extended (paused_abc Extended true) = Normal tt w'
       /\ status w' = Play
       /\ pending w' = pending (paused_abc Extended true) ++ new
       /\ map scheduled new = [(advance 2, 1000); (stopAnimationTimer, 2000)].
Proof.
  split.
  - apply (proj1 (playAnimation_schedules_from_cursor Extended
                    (playing_abc Extended true))).
    vm_compute. reflexivity.
  - destruct (proj2 (playAnimation_schedules_from_cursor Extended
                       (paused_abc Extended true))
                    (transformed Extended
                       {| categories_0 := abc;
                          objects := objects_with false false true 1000 |})
                    (visualSettings_of Extended
                       (objects_with false false true 1000)))
      as (w' & new & E & St & _ & P & _ & S & _).
    + vm_compute. discriminate.
    + vm_compute. reflexivity.
    + vm_compute. reflexivity.
    + exists w', new. repeat split; assumption.
Defined.

(** C2, as stated, fails where no settings are stored.  Before the first
    [update] the view model is [undefined]; in the basic file an [update]
    whose data is not ready stores the settings [{}].  There
    [playAnimation], called in [Stop] or in [Pause], dims the buttons and
    raises on [this.viewModel.settings.transitionSettings]: it sets no
    timer and the status is not [Play]. *)
Lemma play_without_settings_raises :
  (reachable Extended constructed
   /\ status constructed = Stop
   /\ playAnimation Extended constructed
      = TypeError (set_events (events constructed ++ play_opacity) constructed)
   /\ pending (final (playAnimation Extended constructed)) = []
   /\ status (final (playAnimation Extended constructed)) = Stop)
  /\ (reachable Basic (run Basic [host_update absent] (paused_abc Basic true))
      /\ status (run Basic [host_update absent] (paused_abc Basic true)) = Pause
      /\ lastSelected (run Basic [host_update absent] (paused_abc Basic true)) = 1
      /\ exists w',
           playAnimation Basic
             (run Basic [host_update absent] (paused_abc Basic true))
           = TypeError w'
           /\ pending w' = [] /\ status w' = Pause).
Proof.
  split.
  - split; [constructor|]. split; [reflexivity|].
    split; [vm_compute; reflexivity|]. split; reflexivity.
  - split; [apply reachable_run, reachable_paused_abc|].
    split; [reflexivity|]. split; [reflexivity|].
    eexists. split; [vm_compute; reflexivity|]. split; reflexivity.
Qed.

(** C3, as amended: [stopAnimation] does nothing when the status is [Stop].
    Otherwise, settings being stored, it cancels every pending timer, clears
    the caption when captions are shown (it makes no caption call when they
    are hidden), clears the selection, puts the cursor back to 0 and sets
    the status to [Stop]; a call of [playAnimation] after it starts again
    from index 0, and the queue then holds the timers of that call only.
    (In the extended file settings are stored whenever the status is not
    [Stop].) *)
Theorem stopAnimation_resets (v : Variant) (w : World) :
  reachable v w ->
  (status w = Stop -> stopAnimation w = Normal tt w)
  /\ (forall vs, status w <> Stop -> visualSettings w = Some vs ->
       exists w',
         stopAnimation w = Normal tt w'
         /\ pending w' = []
         /\ lastSelected w' = 0
         /\ status w' = Stop
         /\ events w'
            = events w ++ stop_opacity
              ++ (if show (captionSettings vs) then [LabelText ""] else [])
              ++ [Clear]
         /\ exists vm w'',
              viewModel w = Some vm /\ settings vm = Some vs
              /\ playAnimation v w' = Normal tt w''
              /\ map scheduled (pending w'') = full_schedule v vm vs)
  /\ (v = Extended -> status w <> Stop -> visualSettings w <> None).
Proof.
  intros R. apply reachable_Inv in R. split; [|split].
  - intros St. now rewrite stopAnimation_eq, St.
  - intros vs St Vs. exists (stopped vs w).
    assert (E : stopAnimation w = Normal tt (stopped vs w)).
    { rewrite stopAnimation_eq, Vs. destruct (status w); congruence. }
    split; [exact E|].
    assert (P : pending (stopped vs w) = []).
    { unfold stopped; fields. apply (pending_cleared R). }
    split; [exact P|].
    unfold stopped, cleared, caption_events in *; fields.
    split; [reflexivity|]. split; [reflexivity|]. split; [reflexivity|].
    pose proof (inv_settings_agree R) as A. unfold settings_agree in A.
    destruct (viewModel w) as [vm|] eqn:Hvm; [|congruence].
    assert (Hs : settings vm = Some vs) by congruence.
    exists vm.
    match goal with |- exists w'', _ /\ _ /\ playAnimation v ?x = _ /\ _ =>
      set (w1 := x) in * end.
    exists (set_status Play
              (add_timers (played_timers v vm vs w1)
                 (set_events (events w1 ++ play_opacity) w1))).
    split; [reflexivity|]. split; [exact Hs|]. split.
    + apply playAnimation_runs; unfold w1; fields;
        [congruence | exact Hvm | exact Hs].
    + unfold add_timers; fields. unfold w1 at 1; fields. rewrite P.
      cbn [app]. apply played_timers_from_Stop; unfold w1; reflexivity.
  - intros -> St.
    destruct (@Extended_settings_present w R St) as (vm & vs & _ & _ & Vs).
    congruence.
Qed.

Lemma stopAnimation_resets_witness :
  stopAnimation (loaded_abc Basic true) = Normal tt (loaded_abc Basic true)
  /\ exists w' w'',
       stopAnimation (paused_abc Basic true) = Normal tt w'
       /\ pending w' = [] /\ lastSelected w' = 0
       /\ playAnimation Basic w' = Normal tt w''
       /\ map scheduled (pending w'')
          = [(advance 0, 0); (advance 1, 1000); (advance 2, 2000)].
Proof.
  split.
  - apply (proj1 (@stopAnimation_resets Basic (loaded_abc Basic true)
                    (reachable_loaded_abc Basic true))).
    vm_compute. reflexivity.
  - destruct (proj1 (proj2 (@stopAnimation_resets Basic (paused_abc Basic true)
                              (reachable_paused_abc Basic true)))
                    (visualSettings_of Basic (objects_with false false true 1000)))
      as (w' & E & P & L & _ & _ & vm & w'' & Hvm & _ & E' & S).
    + vm_compute. discriminate.
    + vm_compute. reflexivity.
    + exists w', w''. split; [exact E|]. split; [exact P|].
      split; [exact L|]. split; [exact E'|].
      rewrite S. vm_compute in Hvm. injection Hvm as <-.
      vm_compute. reflexivity.
Defined.

(** C3, as stated, fails twice.  With captions hidden, [stopAnimation] sets
    the opacities and clears the selection, and makes no caption call.  And
    in the basic file, after an [update] whose data was not ready, the
    settings are [{}]: [stopAnimation] cancels the timers and then raises in
    [updateCaption], so that the cursor is not reset, the selection is not
    cleared and the status stays [Pause]. *)
Lemma stop_without_caption :
  (status (paused_abc Basic false) = Pause
   /\ exists w',
        stopAnimation (paused_abc Basic false) = Normal tt w'
        /\ status w' = Stop
        /\ events w' = events (paused_abc Basic false) ++ stop_opacity ++ [Clear]
        /\ ~ In (LabelText "") (stop_opacity ++ [Clear]))
  /\ (status (run Basic [host_update absent] (paused_abc Basic true)) = Pause
      /\ exists w',
           stopAnimation (run Basic [host_update absent] (paused_abc Basic true))
           = TypeError w'
           /\ status w' = Pause /\ lastSelected w' = 1
           /\ events w'
              = events (run Basic [host_update absent] (paused_abc Basic true))
                ++ stop_opacity).
Proof.
  split.
  - split; [reflexivity|].
    eexists. split; [vm_compute; reflexivity|]. split; [reflexivity|].
    split; [reflexivity|].
    cbn [stop_opacity app In]. intros H.
    repeat (destruct H as [H|H]; [discriminate H|]). exact H.
  - split; [reflexivity|].
    eexists. split; [vm_compute; reflexivity|]. split; [reflexivity|].
    split; reflexivity.
Qed.

(** C4: the timers waiting in the queue obey an invariant of the controller.
    None is pending while the status is [Stop] or [Pause], so that a
    non-empty queue means the status is [Play].  [playAnimation] is what
    appends to the queue: when it runs (status not [Play], a view model
    stored with its settings) it appends the advances for the indices from
    the starting index on (and the extended file's [stopAnimationTimer]),
    under fresh handles which it pushes on [this.timers]; when it returns at
    once or raises, it leaves the queue as it is.  [pauseAnimation] and
    [stopAnimation] leave no timer.  While the status is [Play] the queue
    empties by itself: the host takes an advance that fires off the queue,
    which is one timer shorter when the closure has run. *)
Theorem pending_timers_invariant (v : Variant) (w : World) :
  reachable v w ->
  (status w = Stop \/ status w = Pause -> pending w = [])
  /\ (pending w <> [] -> status w = Play)
  /\ (forall vm s,
        status w <> Play -> viewModel w = Some vm -> settings vm = Some s ->
        let iv := timeInterval (transitionSettings s) in
        let startIndex :=
          match status w with Stop => 0 | _ => lastSelected w + 1 end in
        exists new,
          pending (final (playAnimation v w)) = pending w ++ new
          /\ timers (final (playAnimation v w)) = timers w ++ map handle new
          /\ map handle new = seq (next_handle w) (List.length new)
          /\ map scheduled new
             = map (fun i => (advance i, (i - lastSelected w) * iv))
                   (range startIndex (length_of vm))
               ++ match v with
                  | Basic => []
                  | Extended =>
                    [(stopAnimationTimer, (length_of vm - lastSelected w) * iv)]
                  end)
  /\ (status w = Play \/ viewModel w = None
      \/ (exists vm, viewModel w = Some vm /\ settings vm = None) ->
      pending (final (playAnimation v w)) = pending w)
  /\ pending (final (pauseAnimation w)) = []
  /\ pending (final (stopAnimation w)) = []
  /\ (forall t i,
        earliest (pending w) = Some t -> callback t = advance i ->
        pending (final (fire v w))
        = filter (fun u => negb (Nat.eqb (handle u) (handle t))) (pending w)
        /\ S (List.length (pending (final (fire v w))))
           = List.length (pending w)).
Proof.
  intros R. apply reachable_Inv in R.
  assert (I : status w <> Play -> pending w = []) by apply (inv_idle_queue R).
  split; [intros [St|St]; apply I; congruence|].
  split; [intros N; destruct (status w); try reflexivity;
          exfalso; apply N, I; congruence|].
  split; [|split; [|split; [|split]]].
  - intros vm s St Hvm Hs iv startIndex.
    exists (played_timers v vm s w).
    rewrite (@playAnimation_runs v w vm s St Hvm Hs). cbn [final].
    unfold add_timers; fields.
    split; [reflexivity|]. split; [reflexivity|].
    split; [apply played_timers_handles|].
    unfold played_timers. rewrite map_app, advance_timers_scheduled.
    destruct v; reflexivity.
  - intros [St|H].
    + now rewrite playAnimation_Play.
    + destruct (status w) eqn:St.
      * now rewrite playAnimation_Play.
      * rewrite playAnimation_raises; [reflexivity | congruence | exact H].
      * rewrite playAnimation_raises; [reflexivity | congruence | exact H].
  - now apply cancellation_drains with (v := v).
  - now apply cancellation_drains with (v := v).
  - intros t i E C.
    destruct (@fire_advance v w t i E C) as (P & _).
    split; [exact P|]. rewrite P. apply filter_one_out.
    + apply (inv_handles_fresh R).
    + now apply earliest_In.
Qed.

Lemma pending_timers_invariant_witness :
  pending (paused_abc Extended true) = []
  /\ (exists new,
        pending (final (playAnimation Extended (loaded_abc Extended true))) = new
        /\ timers (final (playAnimation Extended (loaded_abc Extended true)))
           = map handle new
        /\ map scheduled new
           = [(advance 0, 0); (advance 1, 1000); (advance 2, 2000);
              (stopAnimationTimer, 3000)])
  /\ pending (final (stopAnimation (playing_abc Extended true))) = []
  /\ S (List.length (pending (final (fire Extended (playing_abc Extended true)))))
     = 4%nat.
Proof.
  split; [|split; [|split]].
  - apply (proj1 (@pending_timers_invariant Extended (paused_abc Extended true)
                    (reachable_paused_abc Extended true))).
    right. vm_compute. reflexivity.
  - destruct (@pending_timers_invariant Extended (loaded_abc Extended true)
                (reachable_loaded_abc Extended true))
      as (_ & _ & Pl & _).
    destruct (Pl (transformed Extended
                    {| categories_0 := abc;
                       objects := objects_with false false true 1000 |})
                 (visualSettings_of Extended (objects_with false false true 1000)))
      as (new & P & T & _ & S).
    + vm_compute. discriminate.
    + vm_compute. reflexivity.
    + vm_compute. reflexivity.
    + exists new. split; [exact P|]. split; [exact T|]. exact S.
  - apply (@pending_timers_invariant Extended (playing_abc Extended true)
             (reachable_playing_abc Extended true)).
  - destruct (@pending_timers_invariant Extended (playing_abc Extended true)
                (reachable_playing_abc Extended true))
      as (_ & _ & _ & _ & _ & _ & F).
    destruct (F {| handle := 0; delay := 0; fires_at := 0;
                   callback := advance 0 |} 0) as (_ & L).
    + vm_compute. reflexivity.
    + reflexivity.
    + exact L.
Defined.

(** C5, as amended: in the extended file [playAnimation], called with the
    status not [Play] and a view model stored with its settings, sets
    exactly one more timer, with delay [(length - lastSelected) *
    timeInterval].  When it fires: with [loop] on, the status is set to
    [Stop], the cursor to 0 and [playAnimation] is called again, so that,
    the delays fitting the 32 bits the host keeps, the whole sequence is
    played again, cycle after cycle, until [stopAnimation] or
    [pauseAnimation] empties the queue; with [loop] off, [stopAnimation] is
    called. *)
Theorem stopAnimationTimer_replays_or_stops (w : World) (vm : ViewModel)
    (s : VisualSettings) :
  reachable Extended w -> status w <> Play ->
  viewModel w = Some vm -> settings vm = Some s ->
  let iv := timeInterval (transitionSettings s) in
  let N := List.length (dataPoints vm) in
  exists w',
    playAnimation Extended w = Normal tt w'
    /\ map scheduled
         (filter (fun t => match callback t with
                           | stopAnimationTimer => true
                           | advance _ => false
                           end) (pending w'))
       = [(stopAnimationTimer, (length_of vm - lastSelected w) * iv)]
    /\ (forall t, In t (pending w') ->
                  fires_at t = clock w + Z.max 0 (to_long (delay t)))
    /\ (forall w2, visualSettings w2 = Some s ->
          run_callback Extended stopAnimationTimer w2
          = if loop (transitionSettings s)
            then playAnimation Extended (set_lastSelected 0 (set_status Stop w2))
            else stopAnimation w2)
    /\ (loop (transitionSettings s) = true ->
        (forall w2 T,
           viewModel w2 = Some vm -> visualSettings w2 = Some s ->
           pending w2 = [T] -> callback T = stopAnimationTimer ->
           status (final (fire Extended w2)) = Play
           /\ lastSelected (final (fire Extended w2)) = 0
           /\ map scheduled (pending (final (fire Extended w2)))
              = full_schedule Extended vm s)
        /\ (status w = Stop -> fits_long (length_of vm * iv) ->
            forall k,
              let wk := Nat.iter k (fires Extended (S N)) w' in
              status wk = Play /\ lastSelected wk = 0
              /\ map scheduled (pending wk) = full_schedule Extended vm s
              /\ events wk
                 = events w'
                   ++ List.concat
                        (repeat (flat_map (item_events s) (dataPoints vm)
                                 ++ play_opacity) k)
              /\ pending (final (pauseAnimation wk)) = []
              /\ pending (final (stopAnimation wk)) = [])).
Proof.
  intros R St Hvm Hs iv N.
  pose proof (reachable_Inv R) as I.
  assert (P : pending w = []) by (apply (inv_idle_queue I); exact St).
  set (w' := set_status Play
               (add_timers (played_timers Extended vm s w)
                  (set_events (events w ++ play_opacity) w))).
  assert (E : playAnimation Extended w = Normal tt w')
    by now apply playAnimation_runs.
  exists w'. split; [exact E|]. split; [|split; [|split]].
  - unfold w', add_timers; fields. rewrite P. cbn [app].
    unfold played_timers. rewrite filter_app.
    rewrite filter_all_false.
    + reflexivity.
    + intros t Ht. apply advance_timers_In in Ht.
      destruct Ht as (i & _ & -> & _). reflexivity.
  - unfold w', add_timers; fields. rewrite P. cbn [app].
    intros t. apply played_timers_due.
  - intros w2 Vs. now rewrite run_callback_stopAnimationTimer_eq, Vs.
  - intros Lp. split.
    + intros w2 T Hvm2 Vs2 P2 C.
      destruct (@terminal_restarts vm s w2 T Hvm2 Vs2 Hs Lp P2 C) as [CS _].
      now apply cycle_start_schedule.
    + intros Stop Fit k wk.
      assert (CS : cycle_start vm s w')
        by now apply play_from_Stop_starts_cycle.
      destruct (@many_cycles vm s w' k Fit Hs Lp CS) as [CSk Ev].
      destruct (cycle_start_schedule CSk) as (A & B & C).
      assert (Rk : reachable Extended wk).
      { apply reachable_cycles.
        replace w' with (final (handle_input Extended click_play w))
          by (cbn [handle_input]; now rewrite E).
        now constructor. }
      destruct (cancellation_drains (reachable_Inv Rk)) as [D1 D2].
      repeat split; assumption.
Qed.

Lemma stopAnimationTimer_replays_or_stops_witness :
  exists w',
    playAnimation Extended loaded_looping = Normal tt w'
    /\ status (Nat.iter 2 (fires Extended 4) w') = Play
    /\ map scheduled (pending (Nat.iter 2 (fires Extended 4) w'))
       = [(advance 0, 0); (advance 1, 1000); (advance 2, 2000);
          (stopAnimationTimer, 3000)].
Proof.
  destruct (@stopAnimationTimer_replays_or_stops loaded_looping
              (transformed Extended
                 {| categories_0 := abc;
                    objects := objects_with false true true 1000 |})
              (visualSettings_of Extended (objects_with false true true 1000)))
    as (w' & E & _ & _ & _ & Loop).
  - apply reachable_run, reach_constructed.
  - vm_compute. discriminate.
  - vm_compute. reflexivity.
  - vm_compute. reflexivity.
  - destruct (Loop eq_refl) as [_ Cycles].
    destruct (Cycles eq_refl) with (k := 2%nat) as (St & _ & S & _).
    + vm_compute. split; [discriminate | reflexivity].
    + exists w'. repeat split; assumption.
Defined.

(** C5, as stated, fails twice.  Before the first [update] there is no view
    model: [playAnimation] raises and sets no timer at all.  And the host
    keeps a delay in 32 bits: with three items and an interval of 10^9
    milliseconds the delay [3 * 10^9] of the [stopAnimationTimer] does not
    fit, the timer is due at once and fires right after the advance of
    item 0, so that the sequence starts again before its second and third
    items were shown. *)
Lemma terminal_timer_missing_or_early :
  (status constructed = Stop
   /\ playAnimation Extended constructed
      = TypeError (set_events (events constructed ++ play_opacity) constructed)
   /\ pending (final (playAnimation Extended constructed)) = [])
  /\ (status loaded_slow = Stop
      /\ exists w',
           playAnimation Extended loaded_slow = Normal tt w'
           /\ map scheduled (pending w')
              = [(advance 0, 0); (advance 1, 1000000000);
                 (advance 2, 2000000000); (stopAnimationTimer, 3000000000)]
           /\ events (fires Extended 2 w')
              = events w' ++ [Select (withCategory abc 0); LabelText "A"]
                ++ play_opacity).
Proof.
  split.
  - split; [reflexivity|]. split; [vm_compute; reflexivity|]. reflexivity.
  - split; [reflexivity|].
    eexists. split; [vm_compute; reflexivity|].
    split; vm_compute; reflexivity.
Qed.

(** C6, as amended: on a sequence of length 0 stored with its settings, no
    method raises an error.  [playAnimation] sets no advance timer; in the
    extended file the delay of its [stopAnimationTimer] is 0, so that this
    timer is due at once, and when it runs with [loop] off it calls
    [stopAnimation].  (With [loop] on it calls [playAnimation] again
    instead.) *)
Theorem empty_sequence_is_safe (v : Variant) (w : World) (vm : ViewModel)
    (s : VisualSettings) :
  reachable v w -> viewModel w = Some vm -> dataPoints vm = [] ->
  settings vm = Some s ->
  (exists w', playAnimation v w = Normal tt w')
  /\ (exists w', stopAnimation w = Normal tt w')
  /\ (exists w', pauseAnimation w = Normal tt w')
  /\ (forall d, step d w = Normal tt w)
  /\ (status w <> Play ->
      exists w',
        playAnimation v w = Normal tt w'
        /\ status w' = Play
        /\ pending w'
           = match v with
             | Basic => []
             | Extended =>
               [{| handle := next_handle w; delay := 0; fires_at := clock w;
                   callback := stopAnimationTimer |}]
             end
        /\ (v = Extended -> loop (transitionSettings s) = false ->
            fire v w' = stopAnimation (set_pending [] w')
            /\ status (final (fire v w')) = Stop
            /\ pending (final (fire v w')) = []
            /\ clock (final (fire v w')) = clock w)).
Proof.
  intros R Hvm Hd Hs. apply reachable_Inv in R.
  assert (Vs : visualSettings w = Some s).
  { rewrite (inv_settings_agree R), Hvm. exact Hs. }
  assert (Len : length_of vm = 0) by (unfold length_of; now rewrite Hd).
  split; [|split; [|split; [|split]]].
  - destruct (playAnimation_cases v w)
      as [[_ E]|[(_ & vm' & s' & _ & _ & E)|(_ & [N|(vm' & N1 & N2)] & _)]];
      try (eexists; exact E); congruence.
  - rewrite stopAnimation_eq, Vs. destruct (status w); eexists; reflexivity.
  - rewrite pauseAnimation_eq. destruct (status w); eexists; reflexivity.
  - intros d. rewrite step_eq, Hvm, Len.
    destruct (status w); try reflexivity.
    replace ((lastSelected w + d <? 0) || (lastSelected w + d >? 0 - 1))
      with true; [reflexivity|].
    symmetry. apply orb_true_iff.
    destruct (Z.ltb_spec (lastSelected w + d) 0); [now left|right; lia].
  - intros St.
    assert (P : pending w = []) by (apply (inv_idle_queue R); exact St).
    exists (set_status Play
              (add_timers (played_timers v vm s w)
                 (set_events (events w ++ play_opacity) w))).
    split; [now apply playAnimation_runs|].
    assert (Rg : forall a, 0 <= a -> range a 0 = []).
    { intros a Ha. unfold range.
      replace (Z.to_nat (0 - a)) with 0%nat by lia. reflexivity. }
    pose proof (inv_cursor_nonneg R) as Nn. unfold cursor_nonneg in Nn.
    assert (Adv : range (match status w with Stop => 0 | _ => lastSelected w + 1 end)
                        0 = [])
      by (apply Rg; destruct (status w); lia).
    destruct v.
    + unfold add_timers, played_timers; fields.
      split; [reflexivity|]. split; [|discriminate].
      rewrite P, Len, Adv. reflexivity.
    + assert (L : lastSelected w = 0).
      { destruct (inv_cursor_inside R eq_refl Hvm) as [L|L]; [exact L|lia]. }
      assert (Pt : played_timers Extended vm s w
                   = [{| handle := next_handle w; delay := 0;
                         fires_at := clock w;
                         callback := stopAnimationTimer |}]).
      { unfold played_timers. rewrite Len, Adv, L.
        cbn [advance_timers app List.length]. unfold terminal_timer.
        rewrite Nat.add_0_r. cbn [Z.sub Z.opp Z.add Z.mul Z.max Z.compare].
        now rewrite Z.add_0_r. }
      rewrite Pt. unfold add_timers; fields. rewrite P. cbn [app].
      split; [reflexivity|]. split; [reflexivity|].
      intros _ Lp. unfold fire. fields. cbn [earliest]. fields.
      cbn [filter]. fields. rewrite Nat.eqb_refl. cbn [negb].
      rewrite Z.max_id.
      match goal with |- run_callback _ _ ?x = stopAnimation ?y /\ _ =>
        assert (X : run_callback Extended stopAnimationTimer x = stopAnimation y) end.
      { rewrite run_callback_stopAnimationTimer_eq. fields. rewrite Vs, Lp.
        reflexivity. }
      rewrite X. split; [reflexivity|].
      rewrite stopAnimation_eq. fields. rewrite Vs.
      cbn [final]. unfold stopped, cleared. fields. cbn [filter].
      repeat split; reflexivity.
Qed.

Lemma empty_sequence_is_safe_witness :
  (forall d, step d (loaded_empty Extended) = Normal tt (loaded_empty Extended))
  /\ exists w',
       playAnimation Extended (loaded_empty Extended) = Normal tt w'
       /\ map scheduled (pending w') = [(stopAnimationTimer, 0)]
       /\ status (final (fire Extended w')) = Stop.
Proof.
  destruct (@empty_sequence_is_safe Extended (loaded_empty Extended)
              (transformed Extended
                 {| categories_0 := {| values := []; displayName := "Letter" |};
                    objects := objects_with false false true 1000 |})
              (visualSettings_of Extended (objects_with false false true 1000)))
    as (_ & _ & _ & S & Pl).
  - apply reachable_run, reach_constructed.
  - vm_compute. reflexivity.
  - reflexivity.
  - vm_compute. reflexivity.
  - split; [exact S|].
    destruct Pl as (w' & E & _ & P & F); [vm_compute; discriminate|].
    destruct (F eq_refl eq_refl) as (_ & St & _).
    exists w'. split; [exact E|]. split; [now rewrite P | exact St].
Defined.

(** C6, as stated, fails twice.  With [loop] on, the timer of the empty
    sequence does not call [stopAnimation]: it calls [playAnimation], which
    sets the same zero-delay timer again, and the status stays [Play].  And
    in the basic file the empty view model stored when the data is not
    ready has no settings: [playAnimation] raises on it. *)
Lemma empty_sequence_loops_or_raises :
  (viewModel empty_looping
   = Some (transformed Extended
             {| categories_0 := {| values := []; displayName := "Letter" |};
                objects := objects_with true true true 1000 |})
   /\ map scheduled (pending empty_looping) = [(stopAnimationTimer, 0)]
   /\ status (final (fire Extended empty_looping)) = Play
   /\ map scheduled (pending (final (fire Extended empty_looping)))
      = [(stopAnimationTimer, 0)]
   /\ fire Extended empty_looping
      <> stopAnimation (set_pending [] empty_looping))
  /\ (viewModel not_ready = Some emptyViewModel
      /\ dataPoints emptyViewModel = []
      /\ playAnimation Basic not_ready
         = TypeError (set_events (events not_ready ++ play_opacity) not_ready)).
Proof.
  split; [|split; [reflexivity|split; [reflexivity|]]].
  - split; [reflexivity|]. split; [reflexivity|]. split; [reflexivity|].
    split; [reflexivity|]. vm_compute. discriminate.
  - vm_compute. reflexivity.
Qed.

(** C7, as amended: [step] does nothing unless the status is [Pause], and
    nothing when [lastSelected + step] is outside [0, length - 1]: no error,
    same cursor, no sink call.  Otherwise it moves the cursor by [step],
    selects the item now under the cursor, sets the caption to its label
    when captions are shown (and makes no caption call when they are not),
    and leaves the status at [Pause]. *)
Theorem step_moves_within_bounds (d : Z) (w : World) :
  (status w <> Pause -> step d w = Normal tt w)
  /\ (forall vm, status w = Pause -> viewModel w = Some vm ->
       lastSelected w + d < 0 \/ lastSelected w + d > length_of vm - 1 ->
       step d w = Normal tt w)
  /\ (forall vm vs, status w = Pause -> viewModel w = Some vm ->
       visualSettings w = Some vs ->
       0 <= lastSelected w + d <= length_of vm - 1 ->
       exists dp w',
         nth_error (dataPoints vm) (Z.to_nat (lastSelected w + d)) = Some dp
         /\ step d w = Normal tt w'
         /\ lastSelected w' = lastSelected w + d
         /\ status w' = Pause
         /\ events w'
            = events w
              ++ Select (selectionId dp)
                 :: (if show (captionSettings vs)
                     then [LabelText (category dp)] else [])
         /\ pending w' = pending w /\ viewModel w' = viewModel w).
Proof.
  split; [|split].
  - intros St. rewrite step_eq. destruct (status w); congruence.
  - intros vm St Hvm B. rewrite step_eq, St, Hvm.
    replace ((lastSelected w + d <? 0) || (lastSelected w + d >? length_of vm - 1))
      with true; [reflexivity|].
    symmetry. apply orb_true_iff. destruct B; [left|right]; lia.
  - intros vm vs St Hvm Vs B.
    destruct (@index_inside _ (dataPoints vm) (lastSelected w + d) w)
      as (dp & N & _); [unfold length_of in B; lia|].
    exists dp, (set_status Pause (shown vs dp (lastSelected w + d) w)).
    split; [exact N|]. split.
    + rewrite step_eq, St, Hvm, N, Vs.
      replace ((lastSelected w + d <? 0) || (lastSelected w + d >? length_of vm - 1))
        with false; [reflexivity|].
      symmetry. apply orb_false_iff. split; lia.
    + unfold shown, item_events; fields. repeat split; reflexivity.
Qed.

Lemma step_moves_within_bounds_witness :
  step 1 (playing_abc Basic true) = Normal tt (playing_abc Basic true)
  /\ step (-2) (paused_abc Basic true) = Normal tt (paused_abc Basic true)
  /\ exists w',
       step 1 (paused_abc Basic true) = Normal tt w'
       /\ lastSelected w' = 2
       /\ events w'
          = events (paused_abc Basic true)
            ++ [Select (withCategory abc 2); LabelText "C"].
Proof.
  destruct (step_moves_within_bounds 1 (playing_abc Basic true)) as (A & _).
  destruct (step_moves_within_bounds (-2) (paused_abc Basic true))
    as (_ & B & _).
  destruct (step_moves_within_bounds 1 (paused_abc Basic true))
    as (_ & _ & C).
  split; [|split].
  - apply A. vm_compute. discriminate.
  - apply (B (transformed Basic
                {| categories_0 := abc;
                   objects := objects_with false false true 1000 |}));
      vm_compute; [reflexivity | reflexivity | left; reflexivity].
  - destruct (C (transformed Basic
                   {| categories_0 := abc;
                      objects := objects_with false false true 1000 |})
                (visualSettings_of Basic (objects_with false false true 1000)))
      as (dp & w' & N & E & L & _ & Ev & _).
    + vm_compute. reflexivity.
    + vm_compute. reflexivity.
    + vm_compute. reflexivity.
    + vm_compute. split; discriminate.
    + exists w'. split; [exact E|]. split; [exact L|].
      vm_compute in N. injection N as <-. exact Ev.
Defined.

(** C7, as stated, fails when captions are hidden: the step selects the
    item and makes no caption call. *)
Lemma step_without_caption :
  status (paused_abc Basic false) = Pause
  /\ lastSelected (paused_abc Basic false) = 1
  /\ exists w',
       step 1 (paused_abc Basic false) = Normal tt w'
       /\ lastSelected w' = 2
       /\ events w'
          = events (paused_abc Basic false) ++ [Select (withCategory abc 2)]
       /\ ~ In (LabelText "C") (events w').
Proof.
  split; [reflexivity|]. split; [reflexivity|].
  eexists. split; [vm_compute; reflexivity|].
  split; [reflexivity|]. split; [reflexivity|].
  cbn [events In]. intros H.
  repeat (destruct H as [H|H]; [discriminate H|]). exact H.
Qed.

(** C8: [pauseAnimation] does nothing when the status is [Pause] or [Stop].
    When it is [Play], every pending timer is cancelled, so that no closure
    runs afterwards; the cursor is unchanged; no selection and no caption
    call is made (only the buttons' opacity is set); the status becomes
    [Pause]. *)
Theorem pauseAnimation_cancels_and_keeps_cursor (v : Variant) (w : World) :
  reachable v w ->
  (status w <> Play -> pauseAnimation w = Normal tt w)
  /\ (status w = Play ->
      exists w',
        pauseAnimation w = Normal tt w'
        /\ pending w' = []
        /\ fire v w' = Normal tt w'
        /\ lastSelected w' = lastSelected w
        /\ status w' = Pause
        /\ events w' = events w ++ pause_opacity
        /\ filter is_sink_event pause_opacity = []
        /\ viewModel w' = viewModel w).
Proof.
  intros R. apply reachable_Inv in R. split.
  - intros St. rewrite pauseAnimation_eq. destruct (status w); congruence.
  - intros St. exists (paused w).
    assert (E : pending (paused w) = []).
    { unfold paused. fields. apply (pending_cleared R). }
    split; [rewrite pauseAnimation_eq, St; reflexivity|].
    split; [exact E|].
    split; [unfold fire; rewrite E; reflexivity|].
    unfold paused, cleared; fields. repeat split; reflexivity.
Qed.

Lemma pauseAnimation_cancels_and_keeps_cursor_witness :
  pauseAnimation (paused_abc Basic true) = Normal tt (paused_abc Basic true)
  /\ exists w',
       pauseAnimation (playing_abc Basic true) = Normal tt w'
       /\ pending w' = [] /\ status w' = Pause.
Proof.
  split.
  - apply (proj1 (@pauseAnimation_cancels_and_keeps_cursor Basic
                    (paused_abc Basic true)
                    (reachable_paused_abc Basic true))).
    vm_compute. discriminate.
  - destruct (proj2 (@pauseAnimation_cancels_and_keeps_cursor Basic
                       (playing_abc Basic true)
                       (reachable_playing_abc Basic true)))
      as (w' & E & P & _ & _ & St & _).
    + vm_compute. reflexivity.
    + exists w'. repeat split; assumption.
Defined.

(** C9: in the extended file an [update] with ready data first runs
    [stopAnimation] (no timer is left, the cursor is 0, the status [Stop]),
    then stores the new view model and settings, and then, when [autoStart]
    is set, runs [playAnimation], which schedules the new sequence from
    index 0.  The basic file's [update] stores the new view model and
    leaves the status, the cursor and the timers as they were. *)
Theorem update_stops_first_only_in_extended :
  (forall (w : World) (dv : DataView),
     reachable Extended w ->
     let vm := transformed Extended dv in
     let vs := visualSettings_of Extended (objects dv) in
     exists w1 w',
       stopAnimation w = Normal tt w1
       /\ status w1 = Stop /\ lastSelected w1 = 0 /\ pending w1 = []
       /\ update Extended (ready dv) w = Normal tt w'
       /\ viewModel w' = Some vm /\ visualSettings w' = Some vs
       /\ lastSelected w' = 0
       /\ (autoStart (transitionSettings vs) = false ->
           status w' = Stop /\ pending w' = []
           /\ events w' = events w1 ++ title_events Extended vs dv)
       /\ (autoStart (transitionSettings vs) = true ->
           status w' = Play
           /\ map scheduled (pending w') = full_schedule Extended vm vs
           /\ events w'
              = events w1 ++ play_opacity ++ title_events Extended vs dv))
  /\ (forall (w : World) (options : VisualUpdateOptions),
        let w' := final (update Basic options w) in
        status w' = status w /\ lastSelected w' = lastSelected w
        /\ pending w' = pending w /\ timers w' = timers w
        /\ forall dv, options = ready dv ->
             viewModel w' = Some (transformed Basic dv)).
Proof.
  split.
  - intros w dv R vm vs. apply reachable_Inv in R.
    destruct (Extended_stopAnimation_returns R)
      as (w1 & E1 & St1 & L1 & P1 & _).
    exists w1.
    assert (U : update Extended (ready dv) w = update_after_stop dv w1)
      by (rewrite update_Extended_eq, E1; reflexivity).
    unfold update_after_stop in U. fold vm vs in U. cbv zeta in U.
    destruct (autoStart (transitionSettings vs)) eqn:Auto.
    + set (w2 := installed vm w1) in *.
      assert (Pl : playAnimation Extended w2
                   = Normal tt
                       (set_status Play
                          (add_timers (played_timers Extended vm vs w2)
                             (set_events (events w2 ++ play_opacity) w2)))).
      { apply playAnimation_runs; unfold w2, installed; fields;
          [congruence | reflexivity | reflexivity]. }
      rewrite Pl in U. eexists. repeat split; try eassumption;
        try discriminate; unfold add_timers, w2, installed; fields;
        try reflexivity; try assumption.
      * rewrite P1. cbn [app]. apply played_timers_from_Stop; fields;
          assumption.
      * now rewrite <- app_assoc.
    + eexists. repeat split; try eassumption; try discriminate;
        unfold installed; fields; try reflexivity; assumption.
  - intros w options w'. unfold w'. rewrite update_Basic_eq.
    destruct options as [| |dv]; cbn [final]; cbv zeta; unfold installed;
      fields; repeat split; try reflexivity.
    + discriminate.
    + discriminate.
    + intros dv' E. now injection E as <-.
Qed.

Lemma update_stops_first_only_in_extended_witness :
  exists w',
    update Extended (options_abc true false true) (paused_abc Extended true)
    = Normal tt w'
    /\ status w' = Play /\ lastSelected w' = 0
    /\ map scheduled (pending w')
       = [(advance 0, 0); (advance 1, 1000); (advance 2, 2000);
          (stopAnimationTimer, 3000)].
Proof.
  destruct (proj1 update_stops_first_only_in_extended
              (paused_abc Extended true)
              {| categories_0 := abc;
                 objects := objects_with true false true 1000 |}
              (reachable_paused_abc Extended true))
    as (w1 & w' & _ & _ & _ & _ & U & _ & _ & L & _ & A).
  destruct (A eq_refl) as (St & S & _).
  exists w'. repeat split; assumption.
Defined.

(** C10: [step] takes any integer.  In [Pause], whenever
    [lastSelected + step] is inside [0, length - 1] the cursor moves there
    in one call, and the call does exactly what a step of one position
    arriving at the same item does: the same completion, the same world,
    hence the same selection and caption calls. *)
Theorem step_by_any_delta (d : Z) (w : World) (vm : ViewModel) :
  status w = Pause -> viewModel w = Some vm ->
  0 <= lastSelected w + d <= length_of vm - 1 ->
  step d w = step 1 (set_lastSelected (lastSelected w + d - 1) w)
  /\ lastSelected (final (step d w)) = lastSelected w + d
  /\ exists dp,
       nth_error (dataPoints vm) (Z.to_nat (lastSelected w + d)) = Some dp
       /\ In (Select (selectionId dp)) (events (final (step d w)))
       /\ forall vs, visualSettings w = Some vs ->
            step d w
            = Normal tt (set_status Pause (shown vs dp (lastSelected w + d) w)).
Proof.
  intros St Hvm B.
  destruct (@index_inside _ (dataPoints vm) (lastSelected w + d) w)
    as (dp & N & _); [unfold length_of in B; lia|].
  assert (T : (lastSelected w + d <? 0) || (lastSelected w + d >? length_of vm - 1)
              = false) by (apply orb_false_iff; split; lia).
  assert (E : step d w
              = match visualSettings w with
                | Some vs =>
                  Normal tt (set_status Pause (shown vs dp (lastSelected w + d) w))
                | None =>
                  TypeError (set_events (events w ++ [Select (selectionId dp)])
                               (set_lastSelected (lastSelected w + d) w))
                end).
  { rewrite step_eq, St, Hvm, T, N. reflexivity. }
  split; [|split].
  - rewrite E, step_eq. fields. rewrite St, Hvm.
    replace (lastSelected w + d - 1 + 1) with (lastSelected w + d) by lia.
    rewrite T, N. unfold shown. fields.
    destruct (visualSettings w); f_equal; world_eq; reflexivity.
  - rewrite E. destruct (visualSettings w); unfold shown; reflexivity.
  - exists dp. split; [exact N|]. split.
    + rewrite E. destruct (visualSettings w); unfold shown, item_events;
        cbn [final]; fields; apply in_or_app; right; left; reflexivity.
    + intros vs Vs. rewrite E, Vs. reflexivity.
Qed.

Lemma step_by_any_delta_witness :
  step (-2) (run Basic [click_next] (paused_abc Basic true))
  = step 1 (set_lastSelected (-1) (run Basic [click_next] (paused_abc Basic true)))
  /\ lastSelected (final (step (-2) (run Basic [click_next] (paused_abc Basic true))))
     = 0.
Proof.
  destruct (@step_by_any_delta (-2) (run Basic [click_next] (paused_abc Basic true))
              (transformed Basic
                 {| categories_0 := abc;
                    objects := objects_with false false true 1000 |}))
    as (A & B & _).
  - vm_compute. reflexivity.
  - vm_compute. reflexivity.
  - vm_compute. split; discriminate.
  - split; [exact A | exact B].
Defined.

(** * Further properties *)

(** ** Timers fire in the order of their indices *)

(** The advances for the items from [j] on, their delays within the 32
    bits the host keeps, followed in the queue by timers [rest] that are due
    no earlier: the first [k] firings show the items [j], [j + 1], ... in
    turn, each at the instant its timer is due. *)
Lemma advances_fire_in_order_from (v : Variant) (vm : ViewModel)
    (s : VisualSettings) (c ls : Z) (rest : list Timer) :
  fits_long (length_of vm * timeInterval (transitionSettings s)) ->
  forall (k n j h : nat) (w : World),
    (k <= n)%nat -> (j + n <= List.length (dataPoints vm))%nat ->
    0 <= ls <= Z.of_nat j ->
    viewModel w = Some vm -> visualSettings w = Some s ->
    pending w
    = advance_timers h c ls (timeInterval (transitionSettings s))
        (map Z.of_nat (seq j n)) ++ rest ->
    (forall u, In u rest ->
       (h + n <= handle u)%nat
       /\ forall i, Z.of_nat j <= i < Z.of_nat (j + n) ->
            c + Z.max 0 ((i - ls) * timeInterval (transitionSettings s))
            <= fires_at u) ->
    clock w <= c + Z.max 0 ((Z.of_nat j - ls) * timeInterval (transitionSettings s)) ->
    pending (fires v k w)
    = advance_timers (h + k) c ls (timeInterval (transitionSettings s))
        (map Z.of_nat (seq (j + k) (n - k))) ++ rest
    /\ viewModel (fires v k w) = Some vm
    /\ visualSettings (fires v k w) = Some s
    /\ status (fires v k w) = status w
    /\ timers (fires v k w) = timers w
    /\ next_handle (fires v k w) = next_handle w
    /\ events (fires v k w)
       = events w ++ flat_map (item_events s) (firstn k (skipn j (dataPoints vm)))
    /\ lastSelected (fires v k w)
       = match k with
         | O => lastSelected w
         | S k' => Z.of_nat (j + k')
         end
    /\ clock (fires v k w)
       = match k with
         | O => clock w
         | S k' =>
           c + Z.max 0 ((Z.of_nat (j + k') - ls) * timeInterval (transitionSettings s))
         end.
Proof.
  intros Fit.
  induction k as [|k IH]; intros n j h w Hk Hj Hl Hvm Vs P Hr Hc.
  - unfold fires. cbn [repeat run firstn flat_map].
    rewrite !Nat.add_0_r, Nat.sub_0_r, app_nil_r.
    repeat split; try assumption; reflexivity.
  - destruct n as [|n]; [lia|].
    cbn [seq map advance_timers app] in P.
    rewrite (@to_long_fits
               ((Z.of_nat j - ls) * timeInterval (transitionSettings s))) in P
      by (apply (@fits_long_between (length_of vm) _ _ Fit);
          unfold length_of; lia).
    destruct (nth_error (dataPoints vm) j) as [dp|] eqn:N;
      [|apply nth_error_None in N; lia].
    rewrite fires_S. rewrite (@fire_head v w _ _ P).
    + cbn [callback].
      rewrite (@run_callback_advance_item v _ vm s j dp); fields;
        try assumption.
      cbn [final].
      match goal with |- context [fires v k ?x] => set (w1 := x) end.
      destruct (IH n (S j) (S h) w1) as (E1 & E2 & E3 & E4 & E5 & E6 & E7 & E8 & E9);
        [lia | lia | lia | unfold w1, shown; fields; assumption
         | unfold w1, shown; fields; assumption
         | unfold w1, shown; fields; reflexivity | |
         |].
      * intros u Hu. destruct (Hr u Hu) as [A B]. split; [lia|].
        intros i Hi. apply B. lia.
      * unfold w1, shown; fields.
        apply Z.max_lub; [|apply due_monotone_plain; lia].
        etransitivity; [exact Hc|]. apply due_monotone_plain. lia.
      * rewrite E1, E2, E3, E4, E5, E6, E7, E8, E9. unfold w1, shown; fields.
        replace (S h + k)%nat with (h + S k)%nat by lia.
        replace (S j + k)%nat with (j + S k)%nat by lia.
        cbn [Nat.sub].
        split; [reflexivity|]. split; [reflexivity|]. split; [reflexivity|].
        split; [reflexivity|]. split; [reflexivity|]. split; [reflexivity|].
        split.
        { rewrite (@skipn_nth_error _ _ _ _ N). cbn [firstn flat_map].
          now rewrite <- app_assoc. }
        destruct k as [|k'].
        { rewrite Nat.add_0_r. split; [reflexivity|].
          apply Z.max_r. exact Hc. }
        replace (S j + k')%nat with (j + S k')%nat by lia.
        split; reflexivity.
    + intros u Hu. fields. apply in_app_iff in Hu. destruct Hu as [Hu|Hu].
      * apply advance_timers_In in Hu. destruct Hu as (i & Hi & _ & _ & ->).
        apply in_map_iff in Hi. destruct Hi as (m & <- & Hm).
        apply in_seq in Hm.
        rewrite to_long_fits
          by (apply (@fits_long_between (length_of vm) _ _ Fit);
              unfold length_of; lia).
        apply due_monotone_plain. lia.
      * destruct (Hr u Hu) as [_ B]. apply B. lia.
    + intros u Hu. fields. apply in_app_iff in Hu. destruct Hu as [Hu|Hu].
      * apply advance_timers_handle_ge in Hu. lia.
      * destruct (Hr u Hu) as [A _]. lia.
Qed.

(** The same for a run started with the cursor at 0. *)
Lemma advances_fire_in_order (v : Variant) (vm : ViewModel) (s : VisualSettings)
    (c : Z) (rest : list Timer) :
  fits_long (length_of vm * timeInterval (transitionSettings s)) ->
  forall (k n j h : nat) (w : World),
    (k <= n)%nat -> (j + n <= List.length (dataPoints vm))%nat ->
    viewModel w = Some vm -> visualSettings w = Some s ->
    pending w
    = advance_timers h c 0 (timeInterval (transitionSettings s))
        (map Z.of_nat (seq j n)) ++ rest ->
    (forall u, In u rest ->
       (h + n <= handle u)%nat
       /\ forall i, 0 <= i < Z.of_nat (j + n) ->
            c + Z.max 0 ((i - 0) * timeInterval (transitionSettings s))
            <= fires_at u) ->
    clock w <= c + Z.max 0 ((Z.of_nat j - 0) * timeInterval (transitionSettings s)) ->
    pending (fires v k w)
    = advance_timers (h + k) c 0 (timeInterval (transitionSettings s))
        (map Z.of_nat (seq (j + k) (n - k))) ++ rest
    /\ viewModel (fires v k w) = Some vm
    /\ visualSettings (fires v k w) = Some s
    /\ status (fires v k w) = status w
    /\ timers (fires v k w) = timers w
    /\ next_handle (fires v k w) = next_handle w
    /\ events (fires v k w)
       = events w ++ flat_map (item_events s) (firstn k (skipn j (dataPoints vm)))
    /\ lastSelected (fires v k w)
       = match k with
         | O => lastSelected w
         | S k' => Z.of_nat (j + k')
         end
    /\ clock (fires v k w)
       = match k with
         | O => clock w
         | S k' =>
           c + Z.max 0 ((Z.of_nat (j + k') - 0) * timeInterval (transitionSettings s))
         end.
Proof.
  intros Fit k n j h w Hk Hj Hvm Vs P Hr Hc.
  apply advances_fire_in_order_from; try assumption; [lia|].
  intros u Hu. destruct (Hr u Hu) as [A B]. split; [exact A|].
  intros i Hi. apply B. lia.
Qed.

(** The world [playAnimation] leaves when run in [Stop], and its queue. *)
Lemma played_from_Stop (v : Variant) (w : World) (vm : ViewModel)
    (s : VisualSettings) :
  Inv v w -> status w = Stop -> viewModel w = Some vm -> settings vm = Some s ->
  exists w',
    playAnimation v w = Normal tt w'
    /\ pending w'
       = advance_timers (next_handle w) (clock w) 0
           (timeInterval (transitionSettings s))
           (map Z.of_nat (seq 0 (List.length (dataPoints vm))))
         ++ closing_timers v vm s w
    /\ viewModel w' = Some vm /\ visualSettings w' = Some s
    /\ status w' = Play /\ clock w' = clock w
    /\ events w' = events w ++ play_opacity
    /\ timers w' = timers w ++ map handle (played_timers v vm s w).
Proof.
  intros R St Hvm Hs.
  assert (P : pending w = []) by (apply (inv_idle_queue R); congruence).
  assert (L : lastSelected w = 0) by (apply (inv_cursor_reset R); exact St).
  assert (Vs : visualSettings w = Some s).
  { rewrite (inv_settings_agree R), Hvm. exact Hs. }
  exists (set_status Play
            (add_timers (played_timers v vm s w)
               (set_events (events w ++ play_opacity) w))).
  split; [apply playAnimation_runs; [congruence | exact Hvm | exact Hs]|].
  unfold add_timers; fields. rewrite P. cbn [app].
  repeat split; try assumption; try reflexivity.
  unfold played_timers, closing_timers, length_of. rewrite St, L.
  rewrite range_from_0, advance_timers_length, length_map, length_seq.
  reflexivity.
Qed.

Lemma closing_timers_later (v : Variant) (vm : ViewModel) (s : VisualSettings)
    (w : World) (u : Timer) :
  fits_long (length_of vm * timeInterval (transitionSettings s)) ->
  In u (closing_timers v vm s w) ->
  (next_handle w + List.length (dataPoints vm) <= handle u)%nat
  /\ forall i, 0 <= i < Z.of_nat (0 + List.length (dataPoints vm)) ->
       clock w + Z.max 0 ((i - 0) * timeInterval (transitionSettings s))
       <= fires_at u.
Proof.
  intros Fit. destruct v; cbn [closing_timers In]; [contradiction|].
  intros [<-|[]]. unfold terminal_timer; fields. split; [lia|].
  intros i Hi. rewrite !Z.sub_0_r, to_long_fits by exact Fit.
  apply due_monotone_plain. unfold length_of. lia.
Qed.

(** X1: after [playAnimation] ran in [Stop], the timers fire in the order of
    the indices, for every interval, positive or not, for which the longest
    delay, [length * timeInterval], fits the 32 bits the host keeps: the
    first [k] firings select the items 0 to [k - 1] of the sequence one
    after the other (each followed by its caption when captions are shown)
    and nothing else; the cursor is then [k - 1] and the clock stands
    [(k - 1) * timeInterval] after the call (at the call when that product
    is negative). *)
Theorem items_shown_in_index_order (v : Variant) (w : World) (vm : ViewModel)
    (s : VisualSettings) (k : nat) :
  reachable v w -> status w = Stop ->
  viewModel w = Some vm -> settings vm = Some s ->
  fits_long (length_of vm * timeInterval (transitionSettings s)) ->
  (k <= List.length (dataPoints vm))%nat ->
  exists w',
    playAnimation v w = Normal tt w'
    /\ status (fires v k w') = Play
    /\ events (fires v k w')
       = events w' ++ flat_map (item_events s) (firstn k (dataPoints vm))
    /\ forall k', k = S k' ->
         lastSelected (fires v k w') = Z.of_nat k'
         /\ clock (fires v k w')
            = clock w
              + Z.max 0 (Z.of_nat k' * timeInterval (transitionSettings s)).
Proof.
  intros R St Hvm Hs Fit Hk. apply reachable_Inv in R.
  destruct (played_from_Stop R St Hvm Hs)
    as (w' & E & P & Hvm' & Vs' & St' & Ck & _).
  exists w'. split; [exact E|].
  destruct (@advances_fire_in_order v vm s (clock w) (closing_timers v vm s w)
              Fit k (List.length (dataPoints vm)) 0%nat (next_handle w) w')
    as (_ & _ & _ & F4 & _ & _ & F7 & F8 & F9);
    try assumption; try lia.
  - intros u Hu. exact (@closing_timers_later v vm s w u Fit Hu).
  - split; [now rewrite F4|]. split; [exact F7|].
    intros k' ->. rewrite F8, F9. cbn [Nat.add]. split; [reflexivity|].
    now rewrite Z.sub_0_r.
Qed.

Lemma items_shown_in_index_order_witness :
  exists w',
    playAnimation Basic (loaded_abc Basic true) = Normal tt w'
    /\ lastSelected (fires Basic 2 w') = 1
    /\ clock (fires Basic 2 w') = 1000
    /\ events (fires Basic 2 w')
       = events w'
         ++ [Select (withCategory abc 0); LabelText "A";
             Select (withCategory abc 1); LabelText "B"].
Proof.
  destruct (@items_shown_in_index_order Basic (loaded_abc Basic true)
              (transformed Basic
                 {| categories_0 := abc;
                    objects := objects_with false false true 1000 |})
              (visualSettings_of Basic (objects_with false false true 1000))
              2%nat (reachable_loaded_abc Basic true))
    as (w' & E & _ & Ev & L).
  - vm_compute. reflexivity.
  - vm_compute. reflexivity.
  - vm_compute. reflexivity.
  - vm_compute. split; [discriminate | reflexivity].
  - vm_compute. lia.
  - destruct (L 1%nat eq_refl) as [L1 L2].
    exists w'. split; [exact E|]. split; [exact L1|]. split; [exact L2|].
    exact Ev.
Defined.

(** Nothing fires from an empty queue. *)
Lemma fires_nothing (v : Variant) (n : nat) (w : World) :
  pending w = [] -> fires v n w = w.
Proof.
  intros P. induction n as [|n IH]; [reflexivity|].
  rewrite fires_S. unfold fire. rewrite P. cbn [earliest final]. exact IH.
Qed.

(** X2: the basic visual does not leave [Play] by itself.  Once the timers
    of a sequence played from [Stop] have all fired, in whatever order, the
    queue is empty and the status is still [Play]: a click on play, on
    previous or on next does nothing, and no timer will fire; only stop or
    pause changes that. *)
Theorem basic_run_stays_in_Play (w : World) (vm : ViewModel) (s : VisualSettings) :
  reachable Basic w -> status w = Stop ->
  viewModel w = Some vm -> settings vm = Some s ->
  exists w',
    playAnimation Basic w = Normal tt w'
    /\ pending (fires Basic (List.length (dataPoints vm)) w') = []
    /\ status (fires Basic (List.length (dataPoints vm)) w') = Play
    /\ playAnimation Basic (fires Basic (List.length (dataPoints vm)) w')
       = Normal tt (fires Basic (List.length (dataPoints vm)) w')
    /\ (forall d, step d (fires Basic (List.length (dataPoints vm)) w')
                  = Normal tt (fires Basic (List.length (dataPoints vm)) w'))
    /\ forall n, fires Basic n (fires Basic (List.length (dataPoints vm)) w')
                 = fires Basic (List.length (dataPoints vm)) w'.
Proof.
  intros R St Hvm Hs. apply reachable_Inv in R.
  destruct (played_from_Stop R St Hvm Hs)
    as (w' & E & P & Hvm' & Vs' & St' & Ck & _).
  exists w'. split; [exact E|].
  cbn [closing_timers] in P. rewrite app_nil_r in P.
  destruct (@advances_all_fire Basic (List.length (dataPoints vm)) w')
    as (F1 & F4).
  - rewrite P, advance_timers_handles. apply seq_NoDup.
  - intros t Ht. rewrite P in Ht. apply advance_timers_In in Ht.
    destruct Ht as (i & _ & C & _). now exists i.
  - now rewrite P, advance_timers_length, length_map, length_seq.
  - rewrite St' in F4.
    split; [exact F1|]. split; [exact F4|].
    split; [now apply playAnimation_Play|].
    split; [intros d; now rewrite step_eq, F4|].
    intros n. now apply fires_nothing.
Qed.

Lemma basic_run_stays_in_Play_witness :
  exists w',
    playAnimation Basic (loaded_abc Basic true) = Normal tt w'
    /\ status (fires Basic 3 w') = Play
    /\ pending (fires Basic 3 w') = [].
Proof.
  destruct (@basic_run_stays_in_Play (loaded_abc Basic true)
              (transformed Basic
                 {| categories_0 := abc;
                    objects := objects_with false false true 1000 |})
              (visualSettings_of Basic (objects_with false false true 1000))
              (reachable_loaded_abc Basic true))
    as (w' & E & P & St & _).
  - vm_compute. reflexivity.
  - vm_compute. reflexivity.
  - vm_compute. reflexivity.
  - exists w'. repeat split; assumption.
Defined.

(** X3: with [loop] off, a run of the extended visual started in [Stop] ends
    by itself, when the longest delay, [N * timeInterval], fits the 32 bits
    the host keeps.  After the N advances and the [stopAnimationTimer] have
    fired, every item was shown once in order, then the caption (when
    shown) and the selection were cleared; the status is [Stop], the cursor
    0, the queue empty, and the clock stands [N * timeInterval] after the
    call of [playAnimation] (at the call when that product is negative). *)
Theorem extended_run_ends_in_Stop (w : World) (vm : ViewModel)
    (s : VisualSettings) :
  reachable Extended w -> status w = Stop ->
  viewModel w = Some vm -> settings vm = Some s ->
  loop (transitionSettings s) = false ->
  fits_long (length_of vm * timeInterval (transitionSettings s)) ->
  exists w',
    playAnimation Extended w = Normal tt w'
    /\ status (fires Extended (S (List.length (dataPoints vm))) w') = Stop
    /\ lastSelected (fires Extended (S (List.length (dataPoints vm))) w') = 0
    /\ pending (fires Extended (S (List.length (dataPoints vm))) w') = []
    /\ events (fires Extended (S (List.length (dataPoints vm))) w')
       = events w' ++ flat_map (item_events s) (dataPoints vm)
         ++ stop_opacity ++ caption_events s "" ++ [Clear]
    /\ clock (fires Extended (S (List.length (dataPoints vm))) w')
       = clock w
         + Z.max 0 (Z.of_nat (List.length (dataPoints vm))
                    * timeInterval (transitionSettings s)).
Proof.
  intros R St Hvm Hs Lp Fit. apply reachable_Inv in R.
  destruct (played_from_Stop R St Hvm Hs)
    as (w' & E & P & Hvm' & Vs' & St' & Ck & _).
  exists w'. split; [exact E|].
  pose proof Fit as Fit'. unfold length_of in Fit'.
  set (N := List.length (dataPoints vm)) in *.
  destruct (@advances_fire_in_order Extended vm s (clock w)
              (closing_timers Extended vm s w) Fit N N 0%nat (next_handle w) w')
    as (F1 & F2 & F3 & F4 & _ & _ & F7 & _ & F9);
    try assumption; try lia.
  { intros u Hu. exact (@closing_timers_later Extended vm s w u Fit Hu). }
  rewrite Nat.sub_diag in F1. cbn [seq map advance_timers app] in F1.
  cbn [closing_timers] in F1. cbn [skipn] in F7. unfold N in F7.
  rewrite firstn_all in F7.
  set (T := terminal_timer (next_handle w + List.length (dataPoints vm))
              (clock w) 0 (timeInterval (transitionSettings s)) (length_of vm))
    in *.
  set (wN := fires Extended N w') in *.
  assert (X : fires Extended (S N) w'
              = stopped s (set_clock (Z.max (clock wN) (fires_at T))
                             (set_pending [] wN))).
  { rewrite fires_S_end. fold wN.
    rewrite (@fire_head Extended wN T [] F1); [|intros u []..].
    unfold T at 1. unfold terminal_timer at 1. cbn [callback].
    rewrite run_callback_stopAnimationTimer_eq. fields. rewrite F3, Lp.
    rewrite stopAnimation_eq. fields. rewrite F4, St', F3. reflexivity. }
  rewrite X. unfold stopped, cleared; fields. cbn [filter].
  split; [reflexivity|]. split; [reflexivity|]. split; [reflexivity|].
  split; [fold N in F7; fold wN in F7; rewrite F7, <- app_assoc; reflexivity|].
  unfold T, terminal_timer; fields. rewrite F9, Z.sub_0_r.
  unfold length_of. fold N. rewrite to_long_fits by exact Fit'.
  apply Z.max_r. destruct N as [|k']; [rewrite Ck; lia|].
  cbn [Nat.add]. apply due_monotone_plain. lia.
Qed.

Lemma extended_run_ends_in_Stop_witness :
  exists w',
    playAnimation Extended (loaded_abc Extended true) = Normal tt w'
    /\ status (fires Extended 4 w') = Stop
    /\ clock (fires Extended 4 w') = 3000.
Proof.
  destruct (@extended_run_ends_in_Stop (loaded_abc Extended true)
              (transformed Extended
                 {| categories_0 := abc;
                    objects := objects_with false false true 1000 |})
              (visualSettings_of Extended (objects_with false false true 1000))
              (reachable_loaded_abc Extended true))
    as (w' & E & St & _ & _ & _ & Ck).
  - vm_compute. reflexivity.
  - vm_compute. reflexivity.
  - vm_compute. reflexivity.
  - vm_compute. reflexivity.
  - vm_compute. split; [discriminate | reflexivity].
  - exists w'. repeat split; assumption.
Defined.

(** ** Which handlers can raise *)

(** In the extended file [playAnimation] returns whenever a view model is
    stored. *)
Lemma Extended_playAnimation_returns (w : World) :
  settings_full Extended w -> viewModel w <> None ->
  exists w', playAnimation Extended w = Normal tt w'.
Proof.
  intros SF Hvm.
  destruct (playAnimation_cases Extended w)
    as [[_ E]|[(_ & vm & s & _ & _ & E)|(_ & [N|(vm & N1 & N2)] & _)]];
    try (eexists; exact E).
  - contradiction.
  - exfalso. now apply (SF eq_refl vm N1).
Qed.

(** X4: once [update] has stored a view model, one call only makes the
    extended visual raise: an [update] whose [categories] array is empty
    raises in [isDataReady], on [categories[0].source], before anything is
    written.  Clicks on the five buttons, every other update (ready data or
    a part missing) and timers firing all return normally. *)
Theorem Extended_raises_on_empty_categories_only (w : World) (i : Input) :
  reachable Extended w -> viewModel w <> None ->
  (i <> host_update empty_categories ->
   exists w', handle_input Extended i w = Normal tt w')
  /\ handle_input Extended (host_update empty_categories) w = TypeError w.
Proof.
  intros R Hvm. split; [|reflexivity]. intros Hi.
  apply reachable_Inv in R.
  assert (Vs : exists vm vs, viewModel w = Some vm /\ settings vm = Some vs
                             /\ visualSettings w = Some vs).
  { pose proof (inv_settings_agree R) as A. unfold settings_agree in A.
    destruct (viewModel w) as [vm|] eqn:E; [|contradiction].
    destruct (settings vm) as [vs|] eqn:Hs;
      [|exfalso; apply (inv_settings_full R eq_refl E); exact Hs].
    exists vm, vs. split; [reflexivity|]. split; [exact Hs | exact A]. }
  destruct Vs as (vm & vs & Hvm' & Hs & Vs).
  assert (Step : forall d, exists w', step d w = Normal tt w').
  { intros d. rewrite step_eq, Hvm', Vs.
    destruct (status w); try (eexists; reflexivity).
    destruct ((lastSelected w + d <? 0) || (lastSelected w + d >? length_of vm - 1))
      eqn:B; [eexists; reflexivity|].
    apply orb_false_iff in B. destruct B as [B1 B2].
    destruct (@index_inside _ (dataPoints vm) (lastSelected w + d) w)
      as (dp & N & _); [unfold length_of in *; lia|].
    rewrite N. eexists; reflexivity. }
  destruct i; cbn [handle_input].
  - apply Extended_playAnimation_returns; [apply (inv_settings_full R)|exact Hvm].
  - rewrite stopAnimation_eq, Vs. destruct (status w); eexists; reflexivity.
  - rewrite pauseAnimation_eq. destruct (status w); eexists; reflexivity.
  - apply Step.
  - apply Step.
  - rewrite update_Extended_eq. destruct options as [| |dv];
      [eexists; reflexivity | congruence |].
    destruct (Extended_stopAnimation_returns R)
      as (w1 & E1 & St1 & _).
    rewrite E1. unfold update_after_stop. cbv zeta.
    destruct (autoStart (transitionSettings (visualSettings_of Extended (objects dv))));
      [|eexists; reflexivity].
    rewrite (@playAnimation_runs Extended (installed (transformed Extended dv) w1)
               (transformed Extended dv)
               (visualSettings_of Extended (objects dv)));
      [eexists; reflexivity|unfold installed; fields; congruence|reflexivity..].
  - unfold fire. destruct (earliest (pending w)) as [t|] eqn:E;
      [|eexists; reflexivity].
    apply earliest_In in E.
    destruct (callback t) as [j|] eqn:C.
    + pose proof (inv_targets_inside R) as TI. unfold targets_inside in TI.
      specialize (TI eq_refl vm t j Hvm' E C).
      rewrite run_callback_advance_eq. fields. rewrite Hvm', Vs.
      destruct (j <? 0) eqn:B; [lia|].
      destruct (nth_error (dataPoints vm) (Z.to_nat j)) as [dp|] eqn:N;
        [eexists; reflexivity|].
      apply nth_error_None in N. unfold length_of in TI. lia.
    + rewrite run_callback_stopAnimationTimer_eq. fields. rewrite Vs.
      destruct (loop (transitionSettings vs)).
      * apply Extended_playAnimation_returns.
        -- unfold settings_full; fields. apply (inv_settings_full R).
        -- fields. exact Hvm.
      * rewrite stopAnimation_eq. fields. rewrite Vs.
        destruct (status w); eexists; reflexivity.
  - unfold wait.
    destruct ((0 <=? dt) && forallb (fun t => clock w + dt <=? fires_at t) (pending w));
      eexists; reflexivity.
Qed.

Lemma Extended_raises_on_empty_categories_only_witness :
  (exists w', handle_input Extended timer_fires (playing_abc Extended true)
              = Normal tt w')
  /\ handle_input Extended (host_update empty_categories)
       (playing_abc Extended true)
     = TypeError (playing_abc Extended true).
Proof.
  destruct (@Extended_raises_on_empty_categories_only
              (playing_abc Extended true) timer_fires
              (reachable_playing_abc Extended true))
    as [A B].
  - vm_compute. discriminate.
  - split; [apply A; discriminate | exact B].
Defined.

(** X5: before the first [update] stores a view model the visual can only be
    stopped: the queue is empty and the cursor 0; stop, pause, previous and
    next do nothing; a click on play dims the buttons and then raises on
    [this.viewModel.settings], leaving the status at [Stop] and setting no
    timer. *)
Theorem before_first_update (v : Variant) (w : World) :
  reachable v w -> viewModel w = None ->
  status w = Stop /\ lastSelected w = 0 /\ pending w = []
  /\ stopAnimation w = Normal tt w
  /\ pauseAnimation w = Normal tt w
  /\ (forall d, step d w = Normal tt w)
  /\ fire v w = Normal tt w
  /\ playAnimation v w = TypeError (set_events (events w ++ play_opacity) w).
Proof.
  intros R Hvm. apply reachable_Inv in R.
  assert (St : status w = Stop).
  { destruct (status w) eqn:St; [exfalso..|reflexivity];
      apply (inv_model_present R); congruence. }
  assert (P : pending w = []) by (apply (inv_idle_queue R); congruence).
  split; [exact St|]. split; [now apply (inv_cursor_reset R)|].
  split; [exact P|].
  split; [now rewrite stopAnimation_eq, St|].
  split; [now rewrite pauseAnimation_eq, St|].
  split; [intros d; now rewrite step_eq, St|].
  split; [unfold fire; now rewrite P|].
  apply playAnimation_raises; [congruence | now left].
Qed.

Lemma before_first_update_witness :
  playAnimation Basic constructed
  = TypeError (set_events (events constructed ++ play_opacity) constructed).
Proof.
  apply (@before_first_update Basic constructed (reach_constructed Basic)
           eq_refl).
Defined.

(** X6: in the basic file an [update] whose data is not ready raises, but
    only after it has stored the empty view model with settings [{}]; the
    status, the cursor and the pending timers are as before.  From then on
    [playAnimation] raises, and [stopAnimation] called in [Play] or [Pause]
    cancels the timers and then raises in [updateCaption], so that the
    cursor is not reset and the status does not become [Stop]; previous and
    next do nothing. *)
Theorem Basic_update_not_ready (w : World) :
  reachable Basic w ->
  exists w1,
    update Basic absent w = TypeError w1
    /\ viewModel w1 = Some emptyViewModel /\ visualSettings w1 = None
    /\ status w1 = status w /\ lastSelected w1 = lastSelected w
    /\ pending w1 = pending w /\ events w1 = events w
    /\ (forall d, step d w1 = Normal tt w1)
    /\ (status w <> Play ->
        playAnimation Basic w1
        = TypeError (set_events (events w1 ++ play_opacity) w1))
    /\ (status w <> Stop ->
        exists w2,
          stopAnimation w1 = TypeError w2
          /\ pending w2 = [] /\ status w2 = status w
          /\ lastSelected w2 = lastSelected w
          /\ events w2 = events w ++ stop_opacity).
Proof.
  intros R. set (w1 := installed emptyViewModel w).
  assert (R1 : Inv Basic w1)
    by (apply Inv_installed_Basic, reachable_Inv, R).
  exists w1.
  split; [now rewrite update_Basic_eq|].
  split; [reflexivity|]. split; [reflexivity|]. split; [reflexivity|].
  split; [reflexivity|]. split; [reflexivity|]. split; [reflexivity|].
  split; [|split].
  - intros d. rewrite step_eq.
    change (viewModel w1) with (Some emptyViewModel).
    change (status w1) with (status w).
    change (lastSelected w1) with (lastSelected w).
    destruct (status w); try reflexivity.
    unfold length_of.
    change (Z.of_nat (List.length (dataPoints emptyViewModel))) with 0.
    replace ((lastSelected w + d <? 0) || (lastSelected w + d >? 0 - 1))
      with true; [reflexivity|].
    symmetry. apply orb_true_iff.
    destruct (Z.ltb_spec (lastSelected w + d) 0); [now left|right; lia].
  - intros St. apply playAnimation_raises; [exact St|].
    right. exists emptyViewModel. split; reflexivity.
  - intros St. rewrite stopAnimation_eq.
    change (visualSettings w1) with (@None VisualSettings).
    change (status w1) with (status w).
    pose proof (pending_cleared R1) as C.
    exists (set_events (events w1 ++ stop_opacity) (cleared w1)).
    split; [destruct (status w); [reflexivity..|contradiction]|].
    split; [exact C|]. repeat split; reflexivity.
Qed.

Lemma Basic_update_not_ready_witness :
  exists w1 w2,
    update Basic absent (paused_abc Basic true) = TypeError w1
    /\ stopAnimation w1 = TypeError w2
    /\ status w2 = Pause /\ lastSelected w2 = 1.
Proof.
  destruct (@Basic_update_not_ready (paused_abc Basic true)
              (reachable_paused_abc Basic true))
    as (w1 & E & _ & _ & _ & _ & _ & _ & _ & _ & S).
  destruct S as (w2 & E2 & _ & St & L & _); [vm_compute; discriminate|].
  exists w1, w2. repeat split; assumption.
Defined.

(** ** The view model and the timers of an older sequence *)

Lemma categoryDataPoints_nth (column : DataViewCategoryColumn) (vals : list string) :
  forall (j k : nat),
    nth_error (categoryDataPoints column j vals) k
    = option_map (fun x => {| category := x;
                              selectionId := withCategory column (j + k) |})
                 (nth_error vals k).
Proof.
  induction vals as [|x vals IH]; intros j k.
  - destruct k; reflexivity.
  - destruct k as [|k]; cbn [categoryDataPoints nth_error option_map].
    + now rewrite Nat.add_0_r.
    + rewrite IH. now rewrite Nat.add_succ_r.
Qed.

Lemma categoryDataPoints_length (column : DataViewCategoryColumn)
    (vals : list string) (j : nat) :
  List.length (categoryDataPoints column j vals) = List.length vals.
Proof.
  revert j; induction vals as [|x vals IH]; intros j;
    cbn [categoryDataPoints List.length]; [|rewrite IH]; reflexivity.
Qed.

Lemma categoryDataPoints_category (column : DataViewCategoryColumn)
    (vals : list string) (j : nat) :
  map category (categoryDataPoints column j vals) = vals.
Proof.
  revert j; induction vals as [|x vals IH]; intros j;
    cbn [categoryDataPoints map category]; [|rewrite IH]; reflexivity.
Qed.

(** X7: on ready data [visualTransform] returns without touching the
    visual, with one data point per category value, in the order of the
    values: data point [i] carries value [i] as its label and the selection
    id built for the category column at index [i]; the labels read back are
    the values. *)
Theorem visualTransform_one_point_per_value (v : Variant) (dv : DataView)
    (w : World) :
  exists vm,
    visualTransform v (ready dv) w = Normal vm w
    /\ List.length (dataPoints vm) = List.length (values (categories_0 dv))
    /\ map category (dataPoints vm) = values (categories_0 dv)
    /\ forall i,
         nth_error (dataPoints vm) i
         = option_map
             (fun x => {| category := x;
                          selectionId := withCategory (categories_0 dv) i |})
             (nth_error (values (categories_0 dv)) i).
Proof.
  exists (transformed v dv). split; [reflexivity|].
  unfold transformed. cbn [dataPoints].
  split; [apply categoryDataPoints_length|].
  split; [apply categoryDataPoints_category|].
  intros i. now rewrite categoryDataPoints_nth.
Qed.

(** X8: the basic [update] leaves the pending timers of the sequence it
    replaces in the queue, and their closures read the view model at the
    time they run.  An advance set for index [i] that fires after the
    update selects item [i] of the new sequence, with the new settings
    deciding on the caption; when the new sequence has no item [i] it
    raises on [dataPoints[i].selectionId] and changes nothing. *)
Theorem Basic_stale_advance_reads_new_sequence (w : World) (dv : DataView)
    (i : nat) :
  exists w1,
    update Basic (ready dv) w = Normal tt w1
    /\ pending w1 = pending w /\ status w1 = status w
    /\ lastSelected w1 = lastSelected w
    /\ (forall x, nth_error (values (categories_0 dv)) i = Some x ->
          exists w2,
            run_callback Basic (advance (Z.of_nat i)) w1 = Normal tt w2
            /\ lastSelected w2 = Z.of_nat i
            /\ events w2
               = events w1
                 ++ Select (withCategory (categories_0 dv) i)
                    :: (if show (captionSettings
                                   (visualSettings_of Basic (objects dv)))
                        then [LabelText x] else []))
    /\ ((List.length (values (categories_0 dv)) <= i)%nat ->
        run_callback Basic (advance (Z.of_nat i)) w1 = TypeError w1).
Proof.
  eexists. split; [rewrite update_Basic_eq; cbv zeta; reflexivity|].
  unfold installed; fields. cbn [settings transformed].
  split; [reflexivity|]. split; [reflexivity|]. split; [reflexivity|].
  split.
  - intros x N. eexists. split.
    + apply run_callback_advance_item
        with (vm := transformed Basic dv)
             (dp := {| category := x;
                       selectionId := withCategory (categories_0 dv) i |});
        fields; try reflexivity.
      unfold transformed. cbn [dataPoints].
      now rewrite categoryDataPoints_nth, N.
    + unfold shown, item_events; fields. split; reflexivity.
  - intros Hi. rewrite run_callback_advance_eq. fields.
    destruct (Z.of_nat i <? 0) eqn:B; [reflexivity|].
    rewrite Nat2Z.id. unfold transformed. cbn [dataPoints].
    rewrite categoryDataPoints_nth.
    replace (nth_error (values (categories_0 dv)) i) with (@None string);
      [reflexivity|].
    symmetry. now apply nth_error_None.
Qed.

Lemma Basic_stale_advance_reads_new_sequence_witness :
  exists w1 w2,
    update Basic
      (ready {| categories_0 := {| values := ["Z"]; displayName := "Last" |};
               objects := objects_with false false true 1000 |})
      (playing_abc Basic true)
    = Normal tt w1
    /\ map scheduled (pending w1)
       = [(advance 0, 0); (advance 1, 1000); (advance 2, 2000)]
    /\ run_callback Basic (advance 0) w1 = Normal tt w2
    /\ events w2
       = events w1
         ++ [Select (withCategory {| values := ["Z"]; displayName := "Last" |} 0);
             LabelText "Z"]
    /\ run_callback Basic (advance 2) w1 = TypeError w1.
Proof.
  destruct (@Basic_stale_advance_reads_new_sequence (playing_abc Basic true)
              {| categories_0 := {| values := ["Z"]; displayName := "Last" |};
                 objects := objects_with false false true 1000 |} 0%nat)
    as (w1 & E & P & _ & _ & Sel & _).
  destruct (@Basic_stale_advance_reads_new_sequence (playing_abc Basic true)
              {| categories_0 := {| values := ["Z"]; displayName := "Last" |};
                 objects := objects_with false false true 1000 |} 2%nat)
    as (w1' & E' & _ & _ & _ & _ & Raise).
  assert (w1' = w1) by congruence. subst w1'.
  destruct (Sel "Z" eq_refl) as (w2 & R & _ & Ev).
  exists w1, w2. split; [exact E|]. split; [rewrite P; reflexivity|].
  split; [exact R|]. split; [exact Ev|].
  apply Raise. cbn. lia.
Defined.

(** ** The handles kept in [this.timers] *)

Lemma playAnimation_handles (v : Variant) (w : World) :
  exists n,
    timers (final (playAnimation v w)) = timers w ++ seq (next_handle w) n
    /\ next_handle (final (playAnimation v w)) = (next_handle w + n)%nat.
Proof.
  destruct (playAnimation_cases v w)
    as [[_ E]|[(_ & vm & s & _ & _ & E)|(_ & _ & E)]]; rewrite E;
    cbn [final]; unfold add_timers; fields.
  - exists 0%nat. cbn [seq]. now rewrite app_nil_r, Nat.add_0_r.
  - exists (List.length (played_timers v vm s w)).
    now rewrite played_timers_handles.
  - exists 0%nat. cbn [seq]. now rewrite app_nil_r, Nat.add_0_r.
Qed.

Lemma stopAnimation_handles (w : World) :
  timers (final (stopAnimation w)) = timers w
  /\ next_handle (final (stopAnimation w)) = next_handle w.
Proof.
  rewrite stopAnimation_eq.
  destruct (status w); [destruct (visualSettings w)..|]; cbn [final];
    unfold stopped, cleared; fields; split; reflexivity.
Qed.

Lemma run_callback_handles (v : Variant) (cb : Callback) (w : World) :
  exists n,
    timers (final (run_callback v cb w)) = timers w ++ seq (next_handle w) n
    /\ next_handle (final (run_callback v cb w)) = (next_handle w + n)%nat.
Proof.
  destruct cb as [i|].
  - exists 0%nat. cbn [seq]. rewrite app_nil_r, Nat.add_0_r.
    rewrite run_callback_advance_eq.
    destruct (viewModel w) as [vm|]; [|split; reflexivity].
    destruct (i <? 0); [split; reflexivity|].
    destruct (nth_error (dataPoints vm) (Z.to_nat i)); [|split; reflexivity].
    destruct (visualSettings w); cbn [final]; unfold shown; fields;
      split; reflexivity.
  - rewrite run_callback_stopAnimationTimer_eq.
    destruct (visualSettings w) as [vs|].
    + destruct (loop (transitionSettings vs)).
      * destruct (playAnimation_handles v (set_lastSelected 0 (set_status Stop w)))
          as (n & A & B). exists n. fields. split; assumption.
      * exists 0%nat. cbn [seq]. rewrite app_nil_r, Nat.add_0_r.
        apply stopAnimation_handles.
    + exists 0%nat. cbn [seq final]. now rewrite app_nil_r, Nat.add_0_r.
Qed.

Lemma update_handles (v : Variant) (options : VisualUpdateOptions) (w : World) :
  exists n,
    timers (final (update v options w)) = timers w ++ seq (next_handle w) n
    /\ next_handle (final (update v options w)) = (next_handle w + n)%nat.
Proof.
  destruct v.
  - exists 0%nat. cbn [seq]. rewrite app_nil_r, Nat.add_0_r.
    rewrite update_Basic_eq. destruct options; cbn [final]; cbv zeta;
      unfold installed; fields; split; reflexivity.
  - rewrite update_Extended_eq. destruct options as [| |dv];
      [exists 0%nat; cbn [seq final]; now rewrite app_nil_r, Nat.add_0_r..|].
    + destruct (stopAnimation_handles w) as [A B].
      destruct (stopAnimation w) as [[] w1|w1]; cbn [final] in A, B.
      * unfold update_after_stop. cbv zeta.
        destruct (autoStart (transitionSettings (visualSettings_of Extended (objects dv)))).
        -- destruct (playAnimation_handles Extended
                       (installed (transformed Extended dv) w1)) as (n & C & D).
           unfold installed in C, D. fields. exists n.
           destruct (playAnimation Extended _) as [[] w3|w3];
             cbn [final] in *; fields; rewrite C, D, A, B; split; reflexivity.
        -- exists 0%nat. cbn [seq final]. unfold installed; fields.
           rewrite app_nil_r, Nat.add_0_r. split; assumption.
      * exists 0%nat. cbn [seq final].
        rewrite app_nil_r, Nat.add_0_r. split; assumption.
Qed.

Lemma handle_input_handles (v : Variant) (i : Input) (w : World) :
  exists n,
    timers (final (handle_input v i w)) = timers w ++ seq (next_handle w) n
    /\ next_handle (final (handle_input v i w)) = (next_handle w + n)%nat.
Proof.
  assert (Z0 : forall w', timers w' = timers w -> next_handle w' = next_handle w ->
               exists n, timers w' = timers w ++ seq (next_handle w) n
                         /\ next_handle w' = (next_handle w + n)%nat).
  { intros w' A B. exists 0%nat. cbn [seq].
    rewrite app_nil_r, Nat.add_0_r. split; assumption. }
  destruct i; cbn [handle_input].
  - apply playAnimation_handles.
  - apply Z0; apply stopAnimation_handles.
  - rewrite pauseAnimation_eq. destruct (status w); cbn [final];
      unfold paused, cleared; fields; apply Z0; reflexivity.
  - apply Z0; rewrite step_eq;
      destruct (status w); try reflexivity;
      destruct (viewModel w); try reflexivity;
      destruct (_ || _); try reflexivity;
      destruct (nth_error _ _); try reflexivity;
      destruct (visualSettings w); reflexivity.
  - apply Z0; rewrite step_eq;
      destruct (status w); try reflexivity;
      destruct (viewModel w); try reflexivity;
      destruct (_ || _); try reflexivity;
      destruct (nth_error _ _); try reflexivity;
      destruct (visualSettings w); reflexivity.
  - apply update_handles.
  - unfold fire. destruct (earliest (pending w)) as [t|];
      [|apply Z0; reflexivity].
    match goal with |- context [run_callback v ?cb ?x] =>
      destruct (run_callback_handles v cb x) as (n & A & B) end.
    fields. exists n. split; assumption.
  - unfold wait. destruct (_ && _); apply Z0; reflexivity.
Qed.

(** X9: the handles in [this.timers] are never removed.  In every reachable
    world the array holds every handle [setTimeout] has returned so far, in
    the order they were returned, fired and cancelled ones included; every
    click, update or firing leaves the array as it is or appends the
    handles of the timers it sets. *)
Theorem timers_keep_every_handle (v : Variant) (w : World) :
  reachable v w ->
  timers w = seq 0 (next_handle w)
  /\ forall i, exists n,
       timers (final (handle_input v i w)) = timers w ++ seq (next_handle w) n.
Proof.
  intros R. split.
  - induction R as [|w i _ IH]; [reflexivity|].
    destruct (handle_input_handles v i w) as (n & A & B).
    rewrite A, B, IH, <- seq_app. reflexivity.
  - intros i. destruct (handle_input_handles v i w) as (n & A & _).
    now exists n.
Qed.

Lemma timers_keep_every_handle_witness :
  timers (paused_abc Extended true) = [0; 1; 2; 3]%nat
  /\ pending (paused_abc Extended true) = [].
Proof.
  split.
  - rewrite (proj1 (@timers_keep_every_handle Extended (paused_abc Extended true)
                      (reachable_paused_abc Extended true))).
    vm_compute. reflexivity.
  - vm_compute. reflexivity.
Defined.

(** ** Captions *)

Ltac no_label :=
  let s := fresh "s" in
  let H := fresh "H" in
  intros s H;
  unfold play_opacity, stop_opacity, pause_opacity in H;
  cbn [app In] in H;
  repeat (destruct H as [H|H]; [discriminate H|]); exact H.

Lemma playAnimation_events (v : Variant) (w : World) :
  exists delta,
    events (final (playAnimation v w)) = events w ++ delta
    /\ forall s, ~ In (LabelText s) delta.
Proof.
  destruct (playAnimation_cases v w)
    as [[_ E]|[(_ & vm & s & _ & _ & E)|(_ & _ & E)]]; rewrite E;
    cbn [final]; unfold add_timers; fields.
  - exists []. split; [now rewrite app_nil_r | no_label].
  - exists play_opacity. split; [reflexivity | no_label].
  - exists play_opacity. split; [reflexivity | no_label].
Qed.

Lemma stopAnimation_events (w : World) :
  (forall vs, visualSettings w = Some vs -> show (captionSettings vs) = false) ->
  exists delta,
    events (final (stopAnimation w)) = events w ++ delta
    /\ forall s, ~ In (LabelText s) delta.
Proof.
  intros Hid. rewrite stopAnimation_eq.
  destruct (status w);
    [destruct (visualSettings w) as [vs|] eqn:Vs..|];
    cbn [final]; unfold stopped, cleared, caption_events; fields;
    try rewrite (Hid vs eq_refl).
  1, 3: exists (stop_opacity ++ [Clear]); split; [reflexivity | no_label].
  1, 2: exists stop_opacity; split; [reflexivity | no_label].
  exists []. split; [now rewrite app_nil_r | no_label].
Qed.

Lemma shown_events (vs : VisualSettings) (dp : CategoryDataPoint) (i : Z)
    (w : World) :
  show (captionSettings vs) = false ->
  events (shown vs dp i w) = events w ++ [Select (selectionId dp)].
Proof. intros H. unfold shown, item_events; fields. now rewrite H. Qed.

(** X10: while captions are hidden (or no settings are stored), no click
    and no timer writes the label: whatever [play], [stop], [pause],
    [previous], [next] or a firing timer adds to the calls made on the
    sinks, it contains no write of the label's text.  Only [update] writes
    the label then. *)
Theorem hidden_captions_are_never_written (v : Variant) (i : Input) (w : World) :
  (forall vs, visualSettings w = Some vs -> show (captionSettings vs) = false) ->
  (forall options, i <> host_update options) ->
  exists delta,
    events (final (handle_input v i w)) = events w ++ delta
    /\ forall s, ~ In (LabelText s) delta.
Proof.
  intros Hid Hi.
  assert (Step : forall d, exists delta,
             events (final (step d w)) = events w ++ delta
             /\ forall s, ~ In (LabelText s) delta).
  { intros d. rewrite step_eq.
    destruct (status w);
      try (exists []; split; [now rewrite app_nil_r | no_label]).
    destruct (viewModel w) as [vm|];
      [|exists []; split; [now rewrite app_nil_r | no_label]].
    destruct (_ || _);
      [exists []; split; [now rewrite app_nil_r | no_label]|].
    destruct (nth_error _ _) as [dp|];
      [|exists []; split; [cbn [final]; fields; now rewrite app_nil_r | no_label]].
    destruct (visualSettings w) as [vs|] eqn:Vs; cbn [final]; fields.
    - rewrite shown_events by now apply Hid.
      exists [Select (selectionId dp)]. split; [reflexivity | no_label].
    - exists [Select (selectionId dp)]. split; [reflexivity | no_label]. }
  destruct i; cbn [handle_input].
  - apply playAnimation_events.
  - now apply stopAnimation_events.
  - rewrite pauseAnimation_eq. destruct (status w); cbn [final];
      unfold paused, cleared; fields.
    + exists pause_opacity. split; [reflexivity | no_label].
    + exists []. split; [now rewrite app_nil_r | no_label].
    + exists []. split; [now rewrite app_nil_r | no_label].
  - apply Step.
  - apply Step.
  - exfalso. now apply (Hi options).
  - unfold fire. destruct (earliest (pending w)) as [t|];
      [|exists []; split; [now rewrite app_nil_r | no_label]].
    destruct (callback t) as [j|].
    + rewrite run_callback_advance_eq. fields.
      destruct (viewModel w) as [vm|];
        [|exists []; split; [cbn [final]; fields; now rewrite app_nil_r | no_label]].
      destruct (j <? 0);
        [exists []; split; [cbn [final]; fields; now rewrite app_nil_r | no_label]|].
      destruct (nth_error _ _) as [dp|];
        [|exists []; split; [cbn [final]; fields; now rewrite app_nil_r | no_label]].
      destruct (visualSettings w) as [vs|] eqn:Vs; cbn [final].
      * rewrite shown_events by now apply Hid. fields.
        exists [Select (selectionId dp)]. split; [reflexivity | no_label].
      * fields. exists [Select (selectionId dp)].
        split; [reflexivity | no_label].
    + rewrite run_callback_stopAnimationTimer_eq. fields.
      destruct (visualSettings w) as [vs|] eqn:Vs;
        [|exists []; split; [cbn [final]; fields; now rewrite app_nil_r | no_label]].
      destruct (loop (transitionSettings vs)).
      * match goal with |- context [playAnimation v ?x] =>
          destruct (playAnimation_events v x) as (delta & A & B) end.
        fields. now exists delta.
      * match goal with |- context [stopAnimation ?x] =>
          destruct (@stopAnimation_events x) as (delta & A & B) end.
        { fields. rewrite Vs. exact Hid. }
        fields. now exists delta.
  - unfold wait. destruct (_ && _); cbn [final]; fields;
      exists []; (split; [now rewrite app_nil_r | no_label]).
Qed.

Lemma hidden_captions_are_never_written_witness :
  exists delta,
    events (final (handle_input Basic timer_fires (playing_abc Basic false)))
    = events (playing_abc Basic false) ++ delta
    /\ forall s, ~ In (LabelText s) delta.
Proof.
  apply hidden_captions_are_never_written.
  - intros vs E. vm_compute in E. injection E as <-. reflexivity.
  - discriminate.
Defined.

(** ** Pause and resume *)

Lemma range_from_nat (a b : nat) :
  range (Z.of_nat a) (Z.of_nat b) = map Z.of_nat (seq a (b - a)).
Proof.
  unfold range. replace (Z.to_nat (Z.of_nat b - Z.of_nat a)) with (b - a)%nat by lia.
  generalize (b - a)%nat as n. intros n. revert a.
  induction n as [|n IH]; intros a; [reflexivity|].
  cbn [seq map]. f_equal; [lia|].
  rewrite <- seq_shift, map_map, <- IH. apply map_ext. intros k. lia.
Qed.

(** The world [playAnimation] leaves when run in [Pause] with the cursor on
    item [c], and its queue. *)
Lemma played_from_Pause (v : Variant) (w : World) (vm : ViewModel)
    (s : VisualSettings) (c : nat) :
  Inv v w -> status w = Pause -> viewModel w = Some vm -> settings vm = Some s ->
  lastSelected w = Z.of_nat c ->
  exists w',
    playAnimation v w = Normal tt w'
    /\ pending w'
       = advance_timers (next_handle w) (clock w) (Z.of_nat c)
           (timeInterval (transitionSettings s))
           (map Z.of_nat (seq (S c) (List.length (dataPoints vm) - S c)))
         ++ closing_timers_resumed v vm s c w
    /\ viewModel w' = Some vm /\ visualSettings w' = Some s
    /\ status w' = Play /\ clock w' = clock w
    /\ events w' = events w ++ play_opacity.
Proof.
  intros R St Hvm Hs L.
  assert (P : pending w = []) by (apply (inv_idle_queue R); congruence).
  assert (Vs : visualSettings w = Some s).
  { rewrite (inv_settings_agree R), Hvm. exact Hs. }
  exists (set_status Play
            (add_timers (played_timers v vm s w)
               (set_events (events w ++ play_opacity) w))).
  split; [apply playAnimation_runs; [congruence | exact Hvm | exact Hs]|].
  unfold add_timers; fields. rewrite P. cbn [app].
  repeat split; try assumption; try reflexivity.
  unfold played_timers, closing_timers_resumed, length_of. rewrite St, L.
  replace (Z.of_nat c + 1) with (Z.of_nat (S c)) by lia.
  rewrite range_from_nat, advance_timers_length, length_map, length_seq.
  reflexivity.
Qed.

Lemma closing_timers_resumed_later (v : Variant) (vm : ViewModel)
    (s : VisualSettings) (c : nat) (w : World) (u : Timer) :
  fits_long (length_of vm * timeInterval (transitionSettings s)) ->
  (S c <= List.length (dataPoints vm))%nat ->
  In u (closing_timers_resumed v vm s c w) ->
  (next_handle w + (List.length (dataPoints vm) - S c) <= handle u)%nat
  /\ forall i,
       Z.of_nat (S c) <= i
       < Z.of_nat (S c + (List.length (dataPoints vm) - S c)) ->
       clock w + Z.max 0 ((i - Z.of_nat c) * timeInterval (transitionSettings s))
       <= fires_at u.
Proof.
  intros Fit Hc. destruct v; cbn [closing_timers_resumed In]; [contradiction|].
  intros [<-|[]]. unfold terminal_timer; fields. split; [lia|].
  intros i Hi.
  rewrite to_long_fits
    by (apply (@fits_long_between (length_of vm) _ _ Fit);
        unfold length_of; lia).
  apply due_monotone_plain. unfold length_of. lia.
Qed.

(** X11: pausing and resuming loses no item and repeats none, when the
    longest delay, [N * timeInterval], fits the 32 bits the host keeps.
    When a run started in [Stop] is paused after [k >= 1] of its timers have
    fired and then resumed, the remaining [N - k] firings show the remaining
    items: over the whole run every item was selected exactly once, in the
    order of the sequence. *)
Theorem pause_and_resume_show_every_item_once (v : Variant) (w : World)
    (vm : ViewModel) (s : VisualSettings) (k : nat) :
  reachable v w -> status w = Stop ->
  viewModel w = Some vm -> settings vm = Some s ->
  fits_long (length_of vm * timeInterval (transitionSettings s)) ->
  (1 <= k <= List.length (dataPoints vm))%nat ->
  exists w1 w2 w3,
    playAnimation v w = Normal tt w1
    /\ pauseAnimation (fires v k w1) = Normal tt w2
    /\ lastSelected w2 = Z.of_nat k - 1
    /\ playAnimation v w2 = Normal tt w3
    /\ events (fires v (List.length (dataPoints vm) - k) w3)
       = events w1
         ++ flat_map (item_events s) (firstn k (dataPoints vm))
         ++ pause_opacity ++ play_opacity
         ++ flat_map (item_events s) (skipn k (dataPoints vm)).
Proof.
  intros R St Hvm Hs Fit Hk. pose proof (reachable_Inv R) as I.
  destruct (played_from_Stop I St Hvm Hs)
    as (w1 & E & P & Hvm1 & Vs1 & St1 & Ck1 & _).
  exists w1.
  assert (R1 : reachable v w1).
  { replace w1 with (final (handle_input v click_play w))
      by (cbn [handle_input]; now rewrite E).
    now constructor. }
  destruct k as [|k']; [lia|].
  destruct (@advances_fire_in_order v vm s (clock w) (closing_timers v vm s w)
              Fit (S k') (List.length (dataPoints vm)) 0%nat (next_handle w) w1)
    as (_ & F2 & F3 & F4 & _ & _ & F7 & F8 & _);
    try assumption; try lia.
  { intros u Hu. exact (@closing_timers_later v vm s w u Fit Hu). }
  set (wk := fires v (S k') w1) in *.
  assert (Rk : Inv v wk) by (apply reachable_Inv, reachable_fires, R1).
  rewrite St1 in F4. cbn [skipn Nat.add] in F7, F8.
  exists (paused wk).
  assert (I2 : Inv v (paused wk)).
  { pose proof (Inv_pauseAnimation Rk) as X.
    now rewrite pauseAnimation_eq, F4 in X. }
  destruct (@played_from_Pause v (paused wk) vm s k' I2)
    as (w3 & E3 & P3 & Hvm3 & Vs3 & St3 & Ck3 & Ev3);
    try (unfold paused, cleared; fields; assumption); try reflexivity.
  exists w3.
  split; [exact E|]. split; [now rewrite pauseAnimation_eq, F4|].
  split; [unfold paused, cleared; fields; rewrite F8; lia|].
  split; [exact E3|].
  destruct (@advances_fire_in_order_from v vm s (clock (paused wk)) (Z.of_nat k')
              (closing_timers_resumed v vm s k' (paused wk)) Fit
              (List.length (dataPoints vm) - S k')
              (List.length (dataPoints vm) - S k') (S k')
              (next_handle (paused wk)) w3)
    as (_ & _ & _ & _ & _ & _ & G7 & _);
    try assumption; try lia.
  { intros u Hu.
    exact (@closing_timers_resumed_later v vm s k' (paused wk) u Fit
             ltac:(lia) Hu). }
  rewrite G7, Ev3. unfold paused, cleared; fields. rewrite F7.
  rewrite (@firstn_all2 _ (List.length (dataPoints vm) - S k')
             (skipn (S k') (dataPoints vm)))
    by (rewrite length_skipn; lia).
  now rewrite <- !app_assoc.
Qed.

Lemma pause_and_resume_show_every_item_once_witness :
  exists w1 w2 w3,
    playAnimation Basic (loaded_abc Basic true) = Normal tt w1
    /\ pauseAnimation (fires Basic 2 w1) = Normal tt w2
    /\ playAnimation Basic w2 = Normal tt w3
    /\ events (fires Basic 1 w3)
       = events w1
         ++ [Select (withCategory abc 0); LabelText "A";
             Select (withCategory abc 1); LabelText "B"]
         ++ pause_opacity ++ play_opacity
         ++ [Select (withCategory abc 2); LabelText "C"].
Proof.
  destruct (@pause_and_resume_show_every_item_once Basic (loaded_abc Basic true)
              (transformed Basic
                 {| categories_0 := abc;
                    objects := objects_with false false true 1000 |})
              (visualSettings_of Basic (objects_with false false true 1000))
              2%nat (reachable_loaded_abc Basic true))
    as (w1 & w2 & w3 & E1 & E2 & _ & E3 & Ev).
  - vm_compute. reflexivity.
  - vm_compute. reflexivity.
  - vm_compute. reflexivity.
  - vm_compute. split; [discriminate | reflexivity].
  - vm_compute. lia.
  - exists w1, w2, w3. repeat split; assumption.
Defined.

(** X12: the cursor is 0 both before item 0 was shown and after.  When a
    run of a non-empty sequence started in [Stop] is paused before its
    first timer has fired, resuming starts at index 1: no timer is set for
    item 0; and when the longest delay, [N * timeInterval], fits the 32
    bits the host keeps, the firings that follow show the items from the
    second on, in order. *)
Theorem pause_before_first_item_skips_it (v : Variant) (w : World)
    (vm : ViewModel) (s : VisualSettings) :
  reachable v w -> status w = Stop ->
  viewModel w = Some vm -> settings vm = Some s ->
  (1 <= List.length (dataPoints vm))%nat ->
  exists w1 w2 w3,
    playAnimation v w = Normal tt w1
    /\ pauseAnimation w1 = Normal tt w2
    /\ playAnimation v w2 = Normal tt w3
    /\ (forall t, In t (pending w3) -> callback t <> advance 0)
    /\ (fits_long (length_of vm * timeInterval (transitionSettings s)) ->
        events (fires v (List.length (dataPoints vm) - 1) w3)
        = events w ++ play_opacity ++ pause_opacity ++ play_opacity
          ++ flat_map (item_events s) (skipn 1 (dataPoints vm))).
Proof.
  intros R St Hvm Hs Hn. pose proof (reachable_Inv R) as I.
  destruct (played_from_Stop I St Hvm Hs)
    as (w1 & E & P & Hvm1 & Vs1 & St1 & Ck1 & Ev1 & _).
  exists w1.
  assert (R1 : Inv v w1).
  { apply reachable_Inv.
    replace w1 with (final (handle_input v click_play w))
      by (cbn [handle_input]; now rewrite E).
    now constructor. }
  assert (L1 : lastSelected w1 = 0).
  { destruct (playAnimation_frame v w) as (_ & _ & L & _).
    rewrite E in L. cbn [final] in L. rewrite L.
    now apply (inv_cursor_reset I). }
  exists (paused w1).
  assert (I2 : Inv v (paused w1)).
  { pose proof (Inv_pauseAnimation R1) as X.
    now rewrite pauseAnimation_eq, St1 in X. }
  destruct (@played_from_Pause v (paused w1) vm s 0%nat I2)
    as (w3 & E3 & P3 & Hvm3 & Vs3 & St3 & Ck3 & Ev3);
    try (unfold paused, cleared; fields; assumption); try reflexivity.
  exists w3.
  split; [exact E|]. split; [now rewrite pauseAnimation_eq, St1|].
  split; [exact E3|]. split.
  - intros t Ht. rewrite P3 in Ht. apply in_app_iff in Ht.
    destruct Ht as [Ht|Ht].
    + apply advance_timers_In in Ht. destruct Ht as (i & Hi & -> & _).
      apply in_map_iff in Hi. destruct Hi as (m & <- & Hm).
      apply in_seq in Hm. intros C. injection C as C. lia.
    + destruct v; cbn [closing_timers_resumed In] in Ht; [contradiction|].
      destruct Ht as [<-|[]]. discriminate.
  - intros Fit.
    destruct (@advances_fire_in_order_from v vm s (clock (paused w1)) (Z.of_nat 0)
                (closing_timers_resumed v vm s 0 (paused w1)) Fit
                (List.length (dataPoints vm) - 1)
                (List.length (dataPoints vm) - 1) 1%nat
                (next_handle (paused w1)) w3)
      as (_ & _ & _ & _ & _ & _ & G7 & _);
      try assumption; try lia.
    { intros u Hu.
      exact (@closing_timers_resumed_later v vm s 0%nat (paused w1) u Fit
               Hn Hu). }
    rewrite G7, Ev3. unfold paused, cleared; fields. rewrite Ev1.
    rewrite (@firstn_all2 _ (List.length (dataPoints vm) - 1)
               (skipn 1 (dataPoints vm)))
      by (rewrite length_skipn; lia).
    now rewrite <- !app_assoc.
Qed.

Lemma pause_before_first_item_skips_it_witness :
  exists w1 w2 w3,
    playAnimation Extended (loaded_abc Extended true) = Normal tt w1
    /\ pauseAnimation w1 = Normal tt w2
    /\ playAnimation Extended w2 = Normal tt w3
    /\ map scheduled (pending w3)
       = [(advance 1, 1000); (advance 2, 2000); (stopAnimationTimer, 3000)]
    /\ events (fires Extended 2 w3)
       = events (loaded_abc Extended true)
         ++ play_opacity ++ pause_opacity ++ play_opacity
         ++ [Select (withCategory abc 1); LabelText "B";
             Select (withCategory abc 2); LabelText "C"].
Proof.
  destruct (@pause_before_first_item_skips_it Extended (loaded_abc Extended true)
              (transformed Extended
                 {| categories_0 := abc;
                    objects := objects_with false false true 1000 |})
              (visualSettings_of Extended (objects_with false false true 1000))
              (reachable_loaded_abc Extended true))
    as (w1 & w2 & w3 & E1 & E2 & E3 & _ & Ev).
  - vm_compute. reflexivity.
  - vm_compute. reflexivity.
  - vm_compute. reflexivity.
  - vm_compute. lia.
  - exists w1, w2, w3. split; [exact E1|]. split; [exact E2|].
    split; [exact E3|]. split.
    + vm_compute in E1. injection E1 as <-.
      vm_compute in E2. injection E2 as <-.
      vm_compute in E3. injection E3 as <-.
      vm_compute. reflexivity.
    + apply Ev. vm_compute. split; [discriminate | reflexivity].
Defined.

(** ** The cursor *)

(** X13: a step and the opposite step bring the cursor back.  In [Pause],
    with the cursor on an item, stepping by [d] to another item and then by
    [- d] selects the item arrived at and then the item left, and ends with
    the cursor, the status and the queue as they were. *)
Theorem step_there_and_back (d : Z) (w : World) (vm : ViewModel)
    (vs : VisualSettings) :
  status w = Pause -> viewModel w = Some vm -> visualSettings w = Some vs ->
  0 <= lastSelected w <= length_of vm - 1 ->
  0 <= lastSelected w + d <= length_of vm - 1 ->
  exists dp0 dp1 w1 w2,
    nth_error (dataPoints vm) (Z.to_nat (lastSelected w)) = Some dp0
    /\ nth_error (dataPoints vm) (Z.to_nat (lastSelected w + d)) = Some dp1
    /\ step d w = Normal tt w1
    /\ step (- d) w1 = Normal tt w2
    /\ lastSelected w2 = lastSelected w
    /\ status w2 = Pause /\ pending w2 = pending w
    /\ events w2 = events w ++ item_events vs dp1 ++ item_events vs dp0.
Proof.
  intros St Hvm Vs B0 B1.
  destruct (@index_inside _ (dataPoints vm) (lastSelected w) w)
    as (dp0 & N0 & _); [unfold length_of in *; lia|].
  destruct (@index_inside _ (dataPoints vm) (lastSelected w + d) w)
    as (dp1 & N1 & _); [unfold length_of in *; lia|].
  exists dp0, dp1.
  exists (set_status Pause (shown vs dp1 (lastSelected w + d) w)).
  exists (set_status Pause
            (shown vs dp0 (lastSelected w)
               (set_status Pause (shown vs dp1 (lastSelected w + d) w)))).
  split; [exact N0|]. split; [exact N1|]. split; [|split].
  - rewrite step_eq, St, Hvm, N1, Vs.
    replace ((lastSelected w + d <? 0) || (lastSelected w + d >? length_of vm - 1))
      with false; [reflexivity|].
    symmetry. apply orb_false_iff. split; lia.
  - set (w1 := set_status Pause (shown vs dp1 (lastSelected w + d) w)).
    assert (St1 : status w1 = Pause) by reflexivity.
    assert (Vm1 : viewModel w1 = Some vm) by exact Hvm.
    assert (Vs1 : visualSettings w1 = Some vs) by exact Vs.
    assert (L1 : lastSelected w1 + - d = lastSelected w)
      by (unfold w1, shown; fields; lia).
    clearbody w1.
    rewrite step_eq, St1, Vm1, L1, N0, Vs1.
    replace ((lastSelected w <? 0) || (lastSelected w >? length_of vm - 1))
      with false; [reflexivity|].
    symmetry. apply orb_false_iff. split; lia.
  - unfold shown; fields. repeat split; try reflexivity.
    now rewrite <- app_assoc.
Qed.

Lemma step_there_and_back_witness :
  exists w1 w2,
    step 1 (paused_abc Basic true) = Normal tt w1
    /\ step (-1) w1 = Normal tt w2
    /\ lastSelected w2 = 1
    /\ events w2
       = events (paused_abc Basic true)
         ++ [Select (withCategory abc 2); LabelText "C";
             Select (withCategory abc 1); LabelText "B"].
Proof.
  destruct (@step_there_and_back 1 (paused_abc Basic true)
              (transformed Basic
                 {| categories_0 := abc;
                    objects := objects_with false false true 1000 |})
              (visualSettings_of Basic (objects_with false false true 1000)))
    as (dp0 & dp1 & w1 & w2 & N0 & N1 & E1 & E2 & L & _ & _ & Ev).
  - vm_compute. reflexivity.
  - vm_compute. reflexivity.
  - vm_compute. reflexivity.
  - vm_compute. split; discriminate.
  - vm_compute. split; discriminate.
  - exists w1, w2. split; [exact E1|]. split; [exact E2|]. split; [exact L|].
    vm_compute in N0. injection N0 as <-.
    vm_compute in N1. injection N1 as <-. exact Ev.
Defined.

(** X14: in every reachable world the cursor is not negative, and it is 0
    whenever the status is [Stop].  In the extended file it is moreover 0
    or the index of an item of the stored sequence, and every pending
    advance aims at an item of the stored sequence. *)
Theorem cursor_stays_in_bounds (v : Variant) (w : World) :
  reachable v w ->
  0 <= lastSelected w
  /\ (status w = Stop -> lastSelected w = 0)
  /\ (v = Extended -> forall vm, viewModel w = Some vm ->
        (lastSelected w = 0 \/ lastSelected w < length_of vm)
        /\ forall t i, In t (pending w) -> callback t = advance i ->
             0 <= i < length_of vm).
Proof.
  intros R. apply reachable_Inv in R.
  split; [apply (inv_cursor_nonneg R)|].
  split; [apply (inv_cursor_reset R)|].
  intros Ev vm Hvm. split.
  - destruct (inv_cursor_inside R Ev Hvm) as [L|L]; [now left|right; lia].
  - intros t i Ht C.
    pose proof (inv_targets_inside R) as TI. unfold targets_inside in TI.
    now apply (TI Ev vm t i).
Qed.

Lemma cursor_stays_in_bounds_witness :
  0 <= lastSelected (paused_abc Extended true)
  /\ lastSelected (paused_abc Extended true) < 3.
Proof.
  destruct (@cursor_stays_in_bounds Extended (paused_abc Extended true)
              (reachable_paused_abc Extended true)) as (A & _ & B).
  split; [exact A|].
  destruct (B eq_refl (transformed Extended
                         {| categories_0 := abc;
                            objects := objects_with false false true 1000 |}))
    as [[L|L] _].
  - vm_compute. reflexivity.
  - rewrite L. lia.
  - exact L.
Defined.

(** X15: the basic [update] does not move the cursor.  When it replaces the
    sequence, in [Pause], by one that ends at or before the cursor, a click
    on next does nothing, and a click on play sets no timer and still puts
    the status to [Play]: nothing is shown until stop is clicked. *)
Theorem Basic_update_leaves_cursor_past_the_end (w : World) (dv : DataView) :
  reachable Basic w -> status w = Pause ->
  Z.of_nat (List.length (values (categories_0 dv))) <= lastSelected w + 1 ->
  exists w1 w2,
    update Basic (ready dv) w = Normal tt w1
    /\ lastSelected w1 = lastSelected w
    /\ (forall d, 0 < d -> step d w1 = Normal tt w1)
    /\ playAnimation Basic w1 = Normal tt w2
    /\ status w2 = Play /\ pending w2 = []
    /\ forall n, events (fires Basic n w2) = events w1 ++ play_opacity.
Proof.
  intros R St B. apply reachable_Inv in R.
  assert (P : pending w = []) by (apply (inv_idle_queue R); congruence).
  set (vm := transformed Basic dv).
  set (s := visualSettings_of Basic (objects dv)).
  set (w1 := set_events (events (installed vm w) ++ title_events Basic s dv)
               (installed vm w)).
  assert (Len : length_of vm = Z.of_nat (List.length (values (categories_0 dv)))).
  { unfold length_of, vm, transformed. cbn [dataPoints].
    now rewrite categoryDataPoints_length. }
  exists w1.
  exists (set_status Play
            (add_timers (played_timers Basic vm s w1)
               (set_events (events w1 ++ play_opacity) w1))).
  assert (Pt : played_timers Basic vm s w1 = []).
  { unfold played_timers.
    change (status w1) with (status w). change (lastSelected w1) with (lastSelected w).
    rewrite St, app_nil_r. unfold range.
    replace (Z.to_nat (length_of vm - (lastSelected w + 1))) with 0%nat by lia.
    reflexivity. }
  split; [rewrite update_Basic_eq; reflexivity|].
  split; [reflexivity|]. split; [|split].
  - intros d Hd. rewrite step_eq.
    change (status w1) with (status w). change (viewModel w1) with (Some vm).
    change (lastSelected w1) with (lastSelected w). rewrite St.
    replace ((lastSelected w + d <? 0) || (lastSelected w + d >? length_of vm - 1))
      with true; [reflexivity|].
    symmetry. apply orb_true_iff. right. lia.
  - apply playAnimation_runs; [|reflexivity..].
    change (status w1) with (status w). congruence.
  - rewrite Pt. unfold add_timers. cbn [List.length map].
    split; [reflexivity|].
    assert (Q : pending (set_status Play
                  (set_next_handle (next_handle (set_events (events w1 ++ play_opacity) w1) + 0)
                     (set_timers (timers (set_events (events w1 ++ play_opacity) w1) ++ [])
                        (set_pending (pending (set_events (events w1 ++ play_opacity) w1) ++ [])
                           (set_events (events w1 ++ play_opacity) w1))))) = []).
    { fields. rewrite app_nil_r. exact P. }
    split; [exact Q|].
    intros n. now rewrite fires_nothing.
Qed.

Lemma Basic_update_leaves_cursor_past_the_end_witness :
  exists w1 w2,
    update Basic
      (ready {| categories_0 := {| values := ["Z"]; displayName := "Last" |};
               objects := objects_with false false true 1000 |})
      (paused_abc Basic true)
    = Normal tt w1
    /\ lastSelected w1 = 1
    /\ playAnimation Basic w1 = Normal tt w2
    /\ status w2 = Play /\ pending w2 = [].
Proof.
  destruct (@Basic_update_leaves_cursor_past_the_end (paused_abc Basic true)
              {| categories_0 := {| values := ["Z"]; displayName := "Last" |};
                 objects := objects_with false false true 1000 |}
              (reachable_paused_abc Basic true))
    as (w1 & w2 & E & L & _ & Pl & St & P & _).
  - vm_compute. reflexivity.
  - vm_compute. discriminate.
  - exists w1, w2. repeat split; assumption.
Defined.
